(** * strong_alias: the alias-identity traits, the two alias bodies and the
      operators they declare, embedded from [strong_alias.h] (and, where a
      statement is about the earlier variants of the header, from those).

    The header is a compile-time mechanism, so most of the development is a
    model of what the compiler is asked to decide: which partial
    specialisation of [strong::alias] is chosen, which constructor or operator
    template is a candidate for given operand types (its [requires] clause,
    its [explicit] and [= delete] markers, its [noexcept] expression), and
    which candidate overload resolution picks.  A small run-time layer gives
    the bodies of the members: what they do to the owned (or inherited)
    value and what they return. *)

From Stdlib Require Import String List Bool ZArith Lia Floats.
Import ListNotations.
Open Scope string_scope.
Open Scope list_scope.

(* ================================================================== *)
(** ** Types and the [<type_traits>] predicates the header uses *)

Module Cxx.

(** Arithmetic types. *)
Inductive arith : Type :=
| Bool | Char | SChar | UChar | Short | UShort
| Int | UInt | Long | ULong | LLong | ULLong
| Float | Double | LDouble.

(** An identity marker: the [Name] argument of [alias<T,Name>].  Markers are
    nominal, so a marker is the name of the marker type. *)
Definition marker := string.

(** The four increment and decrement operators. *)
Inductive incr_op : Type := pre_inc | pre_dec | post_inc | post_dec.

(** What the header asks of a class type used as representation.  The class
    is taken to be default-constructible, copyable and movable; its other
    constructors are listed when they take arithmetic parameters.  Its
    operators are listed by kind: the increment and decrement operators it
    has for a modifiable object, the binary operators it declares as members
    (by their spelling), and the binary operators declared beside it at
    namespace scope for two objects of the class (reached by
    argument-dependent lookup; an assignment operator of that list takes its
    left operand by reference to non-const; a comparison the language
    rewrites from a declared [==] or [<=>] is listed as if declared). *)
Record class_decl : Type := {
  cls_final : bool;
  cls_nothrow_copy : bool;
  cls_nothrow_move : bool;
  cls_steps : list incr_op;
  cls_ctors : list (list arith);
  cls_operators : list string;
  cls_free_operators : list string
}.

(** The types.  An enumeration is an unscoped one whose values are those of
    [int]: it promotes to [int] and converts to the arithmetic types as an
    [int] does. *)
Inductive ty : Type :=
| t_void
| t_arith (a : arith)
| t_nullptr
| t_enum (n : string)
| t_ptr (pointee : ty)
| t_memptr (cls : string) (member : ty)
| t_array (elem : ty)
| t_union (n : string)
| t_class (n : string) (d : class_decl)
| is_alias_t                          (* struct is_alias_t {}; *)
| alias_name (Name : marker)          (* struct alias_name<Name> : is_alias_t {}; *)
| alias (T : ty) (Name : marker)      (* struct alias<T,Name> *)
| STRONG_ALIAS (NAME : marker) (T : ty)
      (* struct NAME final : strong::alias<T,NAME> { using alias::alias; } *)
| t_const (t : ty)
| t_lref (t : ty)
| t_rref (t : ty).

Definition arith_eq_dec (a b : arith) : {a = b} + {a <> b}.
Proof. decide equality. Defined.

Definition incr_op_eq_dec (a b : incr_op) : {a = b} + {a <> b}.
Proof. decide equality. Defined.

Definition incr_op_eqb (a b : incr_op) : bool :=
  match a, b with
  | pre_inc, pre_inc | pre_dec, pre_dec
  | post_inc, post_inc | post_dec, post_dec => true
  | _, _ => false
  end.

Definition class_decl_eq_dec (a b : class_decl) : {a = b} + {a <> b}.
Proof.
  decide equality; try apply bool_dec;
    repeat (apply list_eq_dec);
    try apply arith_eq_dec; try apply incr_op_eq_dec; apply string_dec.
Defined.

Definition ty_eq_dec (a b : ty) : {a = b} + {a <> b}.
Proof.
  decide equality;
    try apply string_dec; try apply arith_eq_dec; apply class_decl_eq_dec.
Defined.

Definition ty_eqb (a b : ty) : bool := if ty_eq_dec a b then true else false.
Arguments ty_eq_dec : simpl never.
Arguments ty_eqb : simpl never.

(** [std::remove_reference_t], [std::remove_cv_t], [std::remove_cvref_t]. *)
Definition remove_reference (t : ty) : ty :=
  match t with t_lref u | t_rref u => u | _ => t end.

Fixpoint remove_cv (t : ty) : ty :=
  match t with t_const u => remove_cv u | _ => t end.

Definition remove_cvref (t : ty) : ty := remove_cv (remove_reference t).

Definition is_lvalue_reference (t : ty) : bool :=
  match t with t_lref _ => true | _ => false end.

Definition is_rvalue_reference (t : ty) : bool :=
  match t with t_rref _ => true | _ => false end.

Definition is_const (t : ty) : bool :=
  match t with t_const _ => true | _ => false end.

(** [std::is_scalar_v]: arithmetic, enumeration, pointer, pointer-to-member
    and [std::nullptr_t], each possibly cv-qualified. *)
Fixpoint is_scalar (t : ty) : bool :=
  match t with
  | t_arith _ | t_nullptr | t_enum _ | t_ptr _ | t_memptr _ _ => true
  | t_const u => is_scalar u
  | _ => false
  end.

(** [std::is_class_v]: non-union class types (a specialisation of [alias] is
    a class type whether or not a body is found for it). *)
Fixpoint is_class (t : ty) : bool :=
  match t with
  | t_class _ _ | is_alias_t | alias_name _ | alias _ _ | STRONG_ALIAS _ _ => true
  | t_const u => is_class u
  | _ => false
  end.

(** [std::is_final_v].  The trait wants a complete class: a specialisation
    [alias<U,N>] that matches neither partial specialisation (lines 55 and
    125: [U] is no scalar and no class that can be derived from) is an
    incomplete type, for which the trait cannot be evaluated and from which
    nothing can derive; it is recorded as [true] here, so that no body is
    ever selected over such a type. *)
Fixpoint is_final (t : ty) : bool :=
  match t with
  | t_class _ d => cls_final d
  | STRONG_ALIAS _ _ => true
  | alias U _ => negb (is_scalar U || (is_class U && negb (is_final U)))
  | t_const u => is_final u
  | _ => false
  end.

Definition is_pointer (t : ty) : bool :=
  match remove_cv t with t_ptr _ => true | _ => false end.

Definition remove_pointer (t : ty) : ty :=
  match remove_cv t with t_ptr u => u | _ => t end.

Definition is_arithmetic (t : ty) : bool :=
  match remove_cv t with t_arith _ => true | _ => false end.

Definition is_integral (t : ty) : bool :=
  match remove_cv t with
  | t_arith (Float | Double | LDouble) => false
  | t_arith _ => true
  | _ => false
  end.


(** [std::is_nothrow_copy_constructible_v] and
    [std::is_nothrow_move_constructible_v]: scalars never throw, a user class
    says so in its declaration, the members of namespace strong follow their
    representation type. *)
Fixpoint is_nothrow_copy_constructible (t : ty) : bool :=
  match t with
  | t_arith _ | t_nullptr | t_enum _ | t_ptr _ | t_memptr _ _ => true
  | t_class _ d => cls_nothrow_copy d
  | is_alias_t | alias_name _ => true
  | alias T _ | STRONG_ALIAS _ T => is_nothrow_copy_constructible T
  | t_const u => is_nothrow_copy_constructible u
  | _ => false
  end.

Fixpoint is_nothrow_move_constructible (t : ty) : bool :=
  match t with
  | t_arith _ | t_nullptr | t_enum _ | t_ptr _ | t_memptr _ _ => true
  | t_class _ d => cls_nothrow_move d
  | is_alias_t | alias_name _ => true
  | alias T _ | STRONG_ALIAS _ T => is_nothrow_move_constructible T
  | t_const u => is_nothrow_move_constructible u
  | _ => false
  end.

Definition is_object_pointer (t : ty) : bool :=
  match t with
  | t_ptr t_void | t_ptr (t_const t_void) => false
  | t_ptr _ => true
  | _ => false
  end.

(** Where the built-in [++] and [--], prefix and postfix, apply
    ([expr.pre.incr], [expr.post.incr]): to a modifiable lvalue of
    arithmetic type other than [bool] or of pointer-to-object type.  The four
    built-in operators ask the same of their operand. *)
Definition builtin_step_ok (t : ty) : bool :=
  match t with
  | t_arith Bool => false
  | t_arith _ => true
  | t_ptr _ => is_object_pointer t
  | _ => false
  end.

(** Which conversions between arithmetic types are narrowing
    ([dcl.init.list]) when the source is not a constant.  Widths are those
    of an LP64 platform with a signed [char]. *)
Definition is_floating (a : arith) : bool :=
  match a with Float | Double | LDouble => true | _ => false end.

Definition is_signed (a : arith) : bool :=
  match a with
  | Char | SChar | Short | Int | Long | LLong => true
  | _ => false
  end.

Definition width (a : arith) : nat :=
  match a with
  | Bool => 1
  | Char | SChar | UChar => 8
  | Short | UShort => 16
  | Int | UInt | Float => 32
  | Long | ULong | LLong | ULLong | Double => 64
  | LDouble => 80
  end.

Definition narrowing_arith (from to : arith) : bool :=
  match is_floating from, is_floating to with
  | true, true => Nat.ltb (width to) (width from)
  | true, false | false, true => true
  | false, false =>
      match is_signed from, is_signed to with
      | true, false => true
      | false, true => Nat.leb (width to) (width from)
      | _, _ => Nat.ltb (width to) (width from)
      end
  end.

(** Integral promotion and the type a built-in arithmetic or comparison
    operator works at. *)
Definition promote (a : arith) : arith :=
  match a with
  | Bool | Char | SChar | UChar | Short | UShort => Int
  | _ => a
  end.

Definition float_rank (a : arith) : nat :=
  match a with Float => 1 | Double => 2 | LDouble => 3 | _ => 0 end.

Definition int_rank (a : arith) : nat :=
  match a with
  | Long | ULong => 1
  | LLong | ULLong => 2
  | _ => 0
  end.

Definition to_unsigned (a : arith) : arith :=
  match a with Int => UInt | Long => ULong | LLong => ULLong | _ => a end.

(** The usual arithmetic conversions ([expr.arith.conv]). *)
Definition usual_arithmetic (a b : arith) : arith :=
  let a' := promote a in
  let b' := promote b in
  if is_floating a' || is_floating b' then
    if Nat.leb (float_rank a') (float_rank b') then b' else a'
  else if Bool.eqb (is_signed a') (is_signed b') then
    if Nat.leb (int_rank a') (int_rank b') then b' else a'
  else
    let s := if is_signed a' then a' else b' in
    let u := if is_signed a' then b' else a' in
    if Nat.leb (int_rank s) (int_rank u) then u
    else if Nat.ltb (width u) (width s) then s
    else to_unsigned s.

End Cxx.

(* ================================================================== *)
(** ** namespace strong: category selection and the identity traits *)

Module strong.
Import Cxx.

(** The two bodies of [alias<T,Name>]: the composition body owns a [T value],
    the inheritance body derives from [T]. *)
Inductive body : Type := composition | inheritance.

(** The partial specialisations of [alias], each with its [requires] clause
    (lines 55 and 125).  The primary template is declared and never defined. *)
Definition specializations : list (body * (ty -> bool)) :=
  [ (composition, fun T => is_scalar T);
    (inheritance, fun T => is_class T && negb (is_final T)) ].

Inductive instantiation : Type :=
| Body (b : body)      (* exactly one specialisation matches *)
| Incomplete           (* none matches: only the undefined primary template *)
| Ambiguous.           (* several match and neither constraint subsumes the other *)

Definition instantiate (T : ty) : instantiation :=
  match filter (fun s => snd s T) specializations with
  | [] => Incomplete
  | [s] => Body (fst s)
  | _ => Ambiguous
  end.

(** All base classes, direct and indirect, of a class type.  User classes are
    modelled without bases of their own. *)
Definition alias_bases (T : ty) (Name : marker) (bases_T : list ty) : list ty :=
  match instantiate T with
  | Body composition => [alias_name Name; is_alias_t]
  | Body inheritance => alias_name Name :: is_alias_t :: T :: bases_T
  | _ => []
  end.

Fixpoint bases (d : ty) : list ty :=
  match d with
  | alias_name _ => [is_alias_t]
  | alias T Name => alias_bases T Name (bases T)
  | STRONG_ALIAS NAME T => alias T NAME :: alias_bases T NAME (bases T)
  | _ => []
  end.

(** [std::is_base_of_v<Base, Derived>]: both non-union classes, and the same
    class or a base of it, cv-qualification ignored. *)
Definition is_base_of (Base Derived : ty) : bool :=
  is_class Base && is_class Derived &&
  (ty_eqb (remove_cv Base) (remove_cv Derived)
   || existsb (ty_eqb (remove_cv Base)) (bases (remove_cv Derived))).

Definition rm_cvref_t (T : ty) : ty := remove_cvref T.

(** The three concepts (lines 48-53). *)
Definition is_alias (Arg : ty) : bool :=
  is_base_of is_alias_t (rm_cvref_t Arg).

Definition is_same_alias (Arg : ty) (Name : marker) : bool :=
  is_alias Arg && is_base_of (alias_name Name) (rm_cvref_t Arg).

Definition is_different_alias (Arg : ty) (Name : marker) : bool :=
  is_alias Arg && negb (is_base_of (alias_name Name) (rm_cvref_t Arg)).

(** The macro: the struct derives from [alias<T,NAME>], which must be
    complete. *)
Inductive declaration : Type :=
| Declared (A : ty)
| IncompleteBase
| AmbiguousSpecialization.

Definition declare (NAME : marker) (T : ty) : declaration :=
  match instantiate T with
  | Body _ => Declared (STRONG_ALIAS NAME T)
  | Incomplete => IncompleteBase
  | Ambiguous => AmbiguousSpecialization
  end.

(** *** The members both bodies declare *)

(** The two constructor templates of a body: the [explicit] pack constructor
    [alias(Args&&...)] and the single-argument [alias(Arg&&)]. *)
Inductive ctor : Type := ctor_pack | ctor_single.

Definition ctor_explicit (c : ctor) : bool :=
  match c with ctor_pack => true | ctor_single => false end.

Definition ctor_arity (c : ctor) (n : nat) : bool :=
  match c with ctor_pack => true | ctor_single => Nat.eqb n 1 end.

(** The [requires] clauses of lines 62, 66 (composition) and 129, 133
    (inheritance), over the deduced template arguments.  The fold over an
    empty pack is [true]. *)
Definition ctor_requires (b : body) (c : ctor) (Name : marker) (Args : list ty) : bool :=
  match b, c with
  | composition, ctor_pack => forallb is_alias Args
  | composition, ctor_single =>
      match Args with [Arg] => negb (is_alias Arg) | _ => false end
  | inheritance, ctor_pack => true
  | inheritance, ctor_single =>
      match Args with
      | [Arg] => negb (is_alias (rm_cvref_t Arg)) || is_same_alias (rm_cvref_t Arg) Name
      | _ => false
      end
  end.

(** The [noexcept] expression, the same text on the four constructors (for
    [ctor_single] the pack is the one argument). *)
Definition ctor_noexcept (T : ty) (Args : list ty) : bool :=
  (forallb is_lvalue_reference Args && is_nothrow_copy_constructible T)
  || (forallb is_rvalue_reference Args && is_nothrow_move_constructible T).

(** [static_assert(sizeof...(Args) <= 1)] in the body of the composition
    pack constructor. *)
Definition ctor_static_assert (b : body) (c : ctor) (Args : list ty) : bool :=
  match b, c with
  | composition, ctor_pack => Nat.leb (length Args) 1
  | _, _ => true
  end.

Inductive assign_op : Type :=
| op_assign | op_add_assign | op_sub_assign | op_mul_assign | op_div_assign
| op_rem_assign | op_and_assign | op_or_assign | op_xor_assign
| op_shl_assign | op_shr_assign.

Inductive compare_op : Type := op_eq | op_ne | op_ge | op_le | op_gt | op_lt.

Inductive logical_op : Type := op_land | op_lor.

Inductive arith_op : Type := op_add | op_sub | op_mul | op_div | op_rem.

Inductive binop : Type :=
| b_assign (o : assign_op)
| b_compare (o : compare_op)
| b_logical (o : logical_op)
| b_arith (o : arith_op).

(** What a member returns, as its declaration writes it.  Inside the body
    of [alias<T,Name>] the name [alias] is the injected class name: it is
    the specialisation [alias<T,Name>], also when the member is called on an
    object of a struct the macro declares. *)
Inductive result_type : Type :=
| r_alias_ref     (* alias&  : *this *)
| r_alias         (* alias   : a new alias value *)
| r_T_ref         (* T&      : the owned value *)
| r_T             (* T *)
| r_bool.

(** A member operator template [template<typename Arg> requires ...
    R operator@(const Arg&)]. *)
Record member_template : Type := {
  mt_requires : marker -> ty -> bool;
  mt_deleted : bool;
  mt_result : result_type
}.

(** The clause written on every assignment operator and on the comparison and
    logical operators of the inheritance body. *)
Definition not_alias_or_same_alias (Name : marker) (Arg : ty) : bool :=
  negb (is_alias Arg) || is_same_alias Arg Name.

(** The binary operator templates of a body (lines 78-118 and 142-182).
    Neither body declares an arithmetic operator. *)
Definition declared (b : body) (op : binop) : option member_template :=
  match op, b with
  | b_assign _, _ =>
      Some {| mt_requires := not_alias_or_same_alias;
              mt_deleted := false; mt_result := r_alias_ref |}
  | (b_compare _ | b_logical _), composition =>
      Some {| mt_requires := fun Name Arg => is_different_alias Arg Name;
              mt_deleted := true; mt_result := r_bool |}
  | (b_compare _ | b_logical _), inheritance =>
      Some {| mt_requires := not_alias_or_same_alias;
              mt_deleted := false; mt_result := r_bool |}
  | b_arith _, _ => None
  end.

(** Increment and decrement (lines 74-77 and 138-141): the constraint and the
    return type.  The four requires-expressions [requires(T& a) { ++a; }],
    [{ --a; }], [{ a++; }] and [{ a--; }] ask whether the expression is
    well-formed on a modifiable lvalue of type [T]: for a class [T] whether
    it has that operator, for a [T] that is itself an alias whether that
    alias offers it (its own requires-expression), for any other [T]
    whether the built-in operator applies. *)
Fixpoint incr_requires (T : ty) (o : incr_op) : bool :=
  match T with
  | t_class _ d => existsb (incr_op_eqb o) (cls_steps d)
  | alias U _ =>
      match instantiate U with
      | Body _ => incr_requires U o
      | _ => false
      end
  | _ => builtin_step_ok T
  end.

Definition incr_result (o : incr_op) : result_type :=
  match o with
  | pre_inc | pre_dec => r_alias_ref
  | post_inc | post_dec => r_alias
  end.

(** Member access (lines 120-121), composition body only. *)
Definition arrow_requires (T : ty) : bool :=
  is_pointer T && is_class (remove_pointer T).

Definition deref_requires (T : ty) : bool := is_pointer T.

(** Only the composition body has [operator T()] (lines 71-72). *)
Definition has_conversion_to_T (b : body) : bool :=
  match b with composition => true | inheritance => false end.

End strong.

(** The increment and decrement operators of the two earlier variants of the
    header (the file with [concept]s dated 2020,2024 and the file with
    [enable_if] dated 2020): they hand out the owned value, not the alias. *)
Module strong_2024.
Import Cxx strong.

(* template<typename = std::void_t<decltype(++std::declval<T&>())>>
   constexpr T& operator++() { return ++value; }        and siblings *)
Definition incr_result (o : incr_op) : result_type :=
  match o with
  | pre_inc | pre_dec => r_T_ref
  | post_inc | post_dec => r_T
  end.

(** The concepts of that variant (its lines 44-49) go through
    [std::decay_t] where the header goes through [remove_cvref_t]: a
    reference is removed, then an array becomes a pointer to its element and
    anything else loses its cv-qualification. *)
Definition decay_t (t : ty) : ty :=
  match remove_reference t with
  | t_array u => t_ptr u
  | t_const (t_array u) => t_ptr (t_const u)
  | u => remove_cv u
  end.

Definition is_alias (Arg : ty) : bool :=
  is_base_of is_alias_t (decay_t Arg).

Definition is_same_alias (Arg : ty) (Name : marker) : bool :=
  is_alias Arg && is_base_of (alias_name Name) (decay_t Arg).

Definition is_different_alias (Arg : ty) (Name : marker) : bool :=
  is_alias Arg && negb (is_base_of (alias_name Name) (decay_t Arg)).

End strong_2024.

Module strong_2020.
Import Cxx strong.

(* T& operator++() { return ++value; }        and siblings *)
Definition incr_result (o : incr_op) : result_type :=
  match o with
  | pre_inc | pre_dec => r_T_ref
  | post_inc | post_dec => r_T
  end.

(** The two partial specialisations of that variant (its lines 45-46 and
    125-126) are enabled by [std::enable_if_t]: the class one asks for
    [std::is_class_v<T>] only, with no word on [final]. *)
Definition specializations : list (body * (ty -> bool)) :=
  [ (composition, fun T => is_scalar T);
    (inheritance, fun T => is_class T) ].

Definition instantiate (T : ty) : instantiation :=
  match filter (fun s => snd s T) specializations with
  | [] => Incomplete
  | [s] => Body (fst s)
  | _ => Ambiguous
  end.

End strong_2020.

(* ================================================================== *)
(** ** The fragment of overload resolution the header relies on *)

Module Overload.
Import Cxx strong.

(** Pointer conversions ([conv.ptr], [conv.qual]) from pointer-to-[u] to
    pointer-to-[v]: the pointee keeps or gains [const], and is the same
    type, or [void], or a base class of [u].  Qualification conversions
    below the first level are not listed. *)
Definition pointer_conversion (u v : ty) : bool :=
  (negb (is_const u) || is_const v)
  && (ty_eqb (remove_cv u) (remove_cv v)
      || ty_eqb (remove_cv v) t_void
      || is_base_of (remove_cv v) (remove_cv u)).

(** [standard_conversion from to]: [None] when there is no implicit standard
    conversion, otherwise whether it narrows ([from] and [to] without cv).
    An enumeration converts as the [int] it promotes to; [std::nullptr_t]
    has no implicit conversion to [bool]. *)
Definition standard_conversion (from to : ty) : option bool :=
  match from, to with
  | t_arith a, t_arith b => Some (narrowing_arith a b)
  | t_enum _, t_arith b => Some (narrowing_arith Int b)
  | (t_ptr _ | t_memptr _ _), t_arith Bool => Some true
  | t_nullptr, (t_nullptr | t_ptr _ | t_memptr _ _) => Some false
  | t_ptr u, t_ptr v => if pointer_conversion u v then Some false else None
  | t_enum n, t_enum m => if String.eqb n m then Some false else None
  | t_memptr _ _, t_memptr _ _ => if ty_eqb from to then Some false else None
  | _, _ => None
  end.

Inductive category : Type := lvalue | rvalue.

(** An operand: its type (never a reference, possibly const) and its value
    category. *)
Record operand : Type := { o_ty : ty; o_cat : category }.

Definition lv (t : ty) : operand := {| o_ty := t; o_cat := lvalue |}.
Definition rv (t : ty) : operand := {| o_ty := t; o_cat := rvalue |}.

(** Deduction of [Arg] for a forwarding reference [Arg&&]: [U&] from an
    lvalue of type [U], [U] itself from an rvalue. *)
Definition deduce_forwarding (x : operand) : ty :=
  match o_cat x with
  | lvalue => t_lref (o_ty x)
  | rvalue => o_ty x
  end.

(** Deduction of [Arg] for a parameter [const Arg&]. *)
Definition deduce_const_ref (x : operand) : ty := remove_cv (o_ty x).

(** An operand a reference to non-const binds to. *)
Definition modifiable_lvalue (x : operand) : bool :=
  match o_cat x with
  | lvalue => negb (is_const (o_ty x))
  | rvalue => false
  end.

(** The expression a call of a member of [alias<T,Name>] is, by the return
    type the member declares. *)
Definition result_operand (T : ty) (Name : marker) (r : result_type) : operand :=
  match r with
  | r_alias_ref => lv (alias T Name)
  | r_alias => rv (alias T Name)
  | r_T_ref => lv T
  | r_T => rv T
  | r_bool => rv (t_arith Bool)
  end.

(** Implicit conversion sequences, ordered as [over.ics.rank] orders them.
    Every user-defined conversion of this fragment goes through the one
    conversion function or constructor that is viable for the operand, so two
    user-defined sequences are compared by their second standard conversion. *)
Inductive ics : Type :=
| ics_identity                (* exact match; the reference binds as written *)
| ics_added_cv                (* exact match; binds a more cv-qualified reference *)
| ics_lvalue_ref_to_rvalue    (* exact match; const T& bound where T&& competes *)
| ics_promotion
| ics_conversion              (* a conversion between scalar types *)
| ics_base (B : ty)           (* an object of a class derived from B, as a B *)
| ics_user (second : ics).

Fixpoint ics_cost (c : ics) : nat :=
  match c with
  | ics_identity => 0
  | ics_added_cv => 1
  | ics_lvalue_ref_to_rvalue => 2
  | ics_promotion => 3
  | ics_conversion => 4
  | ics_base _ => 4
  | ics_user s => 5 + ics_cost s
  end.

(** [over.ics.rank]/4: of two conversions of an object to a base class, the
    one to the nearer base, the class derived from the other, is the better. *)
Fixpoint ics_nearer (c d : ics) : bool :=
  match c, d with
  | ics_base B, ics_base A =>
      is_base_of A B && negb (ty_eqb (remove_cv A) (remove_cv B))
  | ics_user s, ics_user t => ics_nearer s t
  | _, _ => false
  end.

Definition ics_ltb (c d : ics) : bool :=
  Nat.ltb (ics_cost c) (ics_cost d)
  || (Nat.eqb (ics_cost c) (ics_cost d) && ics_nearer c d).

Definition ics_leb (c d : ics) : bool := negb (ics_ltb d c).

Record candidate (F : Type) : Type := {
  cand_fn : F;
  cand_ics : list ics;        (* one per argument *)
  cand_template : bool;       (* a function template specialisation *)
  cand_pack : bool;           (* whose parameter is a pack *)
  cand_deleted : bool
}.
Arguments cand_fn {F} _.
Arguments cand_ics {F} _.
Arguments cand_template {F} _.
Arguments cand_pack {F} _.
Arguments cand_deleted {F} _.

Fixpoint all2 (f : ics -> ics -> bool) (l1 l2 : list ics) : bool :=
  match l1, l2 with
  | a :: l1', b :: l2' => f a b && all2 f l1' l2'
  | _, _ => true
  end.

Fixpoint any2 (f : ics -> ics -> bool) (l1 l2 : list ics) : bool :=
  match l1, l2 with
  | a :: l1', b :: l2' => f a b || any2 f l1' l2'
  | _, _ => false
  end.

(** [over.match.best]: [c] is better than [d] when no argument converts
    worse and either some argument converts better, or [c] is not a template
    and [d] is, or both are templates and [c] is the more specialised (a
    single parameter against a pack).  The header declares [operator!=]
    beside every [operator==], so no [operator==] is a rewrite target
    ([over.match.oper]/4) and there are no rewritten candidates. *)
Definition tie_break {F} (c d : candidate F) : bool :=
  if xorb (cand_template c) (cand_template d) then cand_template d
  else negb (cand_pack c) && cand_pack d.

Definition better {F} (c d : candidate F) : bool :=
  all2 ics_leb (cand_ics c) (cand_ics d)
  && (any2 ics_ltb (cand_ics c) (cand_ics d) || tie_break c d).

Inductive outcome (F : Type) : Type :=
| Selected (f : F)       (* well-formed: this function is called *)
| UsesDeleted (f : F)    (* the best viable function is deleted *)
| NoViable               (* no candidate accepts the operands *)
| AmbiguousCall          (* no single best viable function *)
| IllFormedBody (f : F). (* selected; its body does not instantiate *)
Arguments Selected {F} _.
Arguments UsesDeleted {F} _.
Arguments NoViable {F}.
Arguments AmbiguousCall {F}.
Arguments IllFormedBody {F} _.

(** What overload resolution answers once the best viable function is
    known: a deleted function makes the call ill-formed. *)
Definition chosen {F} (c : candidate F) : outcome F :=
  if cand_deleted c then UsesDeleted (cand_fn c) else Selected (cand_fn c).

(** The best viable function is the candidate every other candidate loses
    to; [better] is irreflexive, so it is the one with exactly one candidate
    (itself) it is not better than. *)
Definition select {F} (cands : list (candidate F)) : outcome F :=
  match cands with
  | [] => NoViable
  | _ =>
      match filter (fun c =>
              Nat.eqb (length (filter (fun d => negb (better c d)) cands)) 1)
              cands with
      | [c] => chosen c
      | _ => AmbiguousCall
      end
  end.

Definition compiles {F} (o : outcome F) : bool :=
  match o with Selected _ => true | _ => false end.

(** The alias an operand type is: its representation type, identity and body
    ([None] for every other type, and for an alias no body is found for). *)
Definition alias_of (A : ty) : option (ty * marker * body) :=
  match remove_cv A with
  | alias T Name | STRONG_ALIAS Name T =>
      match instantiate T with
      | Body b => Some (T, Name, b)
      | _ => None
      end
  | _ => None
  end.

Definition is_macro_struct (A : ty) : bool :=
  match remove_cv A with STRONG_ALIAS _ _ => true | _ => false end.

End Overload.

(** *** Initialisation of an alias object *)

Module Init.
Import Cxx strong Overload.

(** The forms of initialisation told apart.  Braces after [=] around one or
    more arguments ([A b = {x};]) are not among them. *)
Inductive init_kind : Type :=
| direct       (* A b(x);  A b{x};  A{x};  with no argument, A a;  A a{}; *)
| copy.        (* A b = x;  passing x to a parameter of type A or returning
                  it as an A;  with no argument, A a = {}; *)

Inductive ctor_fn : Type :=
| by_template (c : ctor) (Args : list ty)
| implicit_copy        (* A(const A&), implicitly declared *)
| implicit_move.       (* A(A&&), implicitly declared *)

(** [over.match.funcs]/9: a constructor inherited through the
    using-declaration of the macro struct is not a candidate for a single
    argument that is the struct itself or a base of it. *)
Definition excluded_inherited (A : ty) (args : list operand) : bool :=
  match remove_cv A, args with
  | STRONG_ALIAS NAME T, [x] =>
      let P := remove_cv (o_ty x) in
      is_base_of (alias T NAME) P && is_base_of P (remove_cv A)
  | _, _ => false
  end.

Definition template_candidate (k : init_kind) (A : ty) (b : body)
    (Name : marker) (args : list operand) (c : ctor)
  : list (candidate ctor_fn) :=
  let Args := map deduce_forwarding args in
  if ctor_arity c (length args)
     && ctor_requires b c Name Args
     && (match k with direct => true | copy => negb (ctor_explicit c) end)
     && negb (excluded_inherited A args)
  then [ {| cand_fn := by_template c Args;
            cand_ics := map (fun _ => ics_identity) args;
            cand_template := true;
            cand_pack := match c with ctor_pack => true | ctor_single => false end;
            cand_deleted := false |} ]
  else [].

(** The implicitly declared copy and move constructors accept the class
    itself and classes derived from it; no user-defined conversion is tried
    for their parameter ([over.best.ics]/4). *)
Definition implicit_candidates (A : ty) (args : list operand)
  : list (candidate ctor_fn) :=
  match args with
  | [x] =>
      let same := ty_eqb (remove_cv (o_ty x)) (remove_cv A) in
      if is_base_of (remove_cv A) (o_ty x) then
        [ {| cand_fn := implicit_copy;
             cand_ics := [ if negb same then ics_base (remove_cv A)
                           else match o_cat x with
                                | rvalue => ics_lvalue_ref_to_rvalue
                                | lvalue => if is_const (o_ty x) then ics_identity
                                            else ics_added_cv
                                end ];
             cand_template := false; cand_pack := false;
             cand_deleted := false |} ]
        ++ (match o_cat x, is_const (o_ty x) with
            | rvalue, false =>
                [ {| cand_fn := implicit_move;
                     cand_ics := [ if same then ics_identity
                                   else ics_base (remove_cv A) ];
                     cand_template := false; cand_pack := false;
                     cand_deleted := false |} ]
            | _, _ => []
            end)
      else []
  | _ => []
  end.

(** The candidate constructors.  With no argument the macro struct goes
    through its implicitly declared default constructor, which is not
    [explicit] and direct-initialises the base: whatever the kind of
    initialisation, the candidates are those of the base in a
    direct-initialisation. *)
Definition constructors (k : init_kind) (A : ty) (args : list operand)
  : list (candidate ctor_fn) :=
  match alias_of A with
  | Some (_, Name, b) =>
      let k' := match args with
                | [] => if is_macro_struct A then direct else k
                | _ :: _ => k
                end in
      template_candidate k' A b Name args ctor_pack
      ++ template_candidate k' A b Name args ctor_single
      ++ implicit_candidates A args
  | None => []
  end.

(** The scalar type an operand offers where a built-in type is wanted, and
    whether reaching it takes a conversion function: a scalar offers itself,
    an alias with the composition body offers [T] through [operator T()]. *)
Definition offers (x : ty) : option (ty * bool) :=
  if is_scalar x then Some (remove_cv x, false)
  else match alias_of x with
       | Some (T, _, b) =>
           if has_conversion_to_T b then Some (remove_cv T, true) else None
       | None => None
       end.

(** The member initialiser of the selected constructor template:
    [value{ std::forward<Args>(args)... }] (list-initialisation of a scalar:
    nothing, or one operand that converts without narrowing; a narrowing
    conversion inside braces is ill-formed by [dcl.init.list], though g++
    only warns when the source is not a constant) and
    [T(std::forward<Args>(args)...)] (a constructor of [T]). *)
Definition member_init_ok (b : body) (T : ty) (args : list operand) : bool :=
  match b, args with
  | composition, [] => true
  | composition, [x] =>
      match offers (o_ty x) with
      | Some (U, _) =>
          match standard_conversion U (remove_cv T) with
          | Some narrowing => negb narrowing
          | None => false
          end
      | None => false
      end
  | composition, _ => false
  | inheritance, [] => true
  | inheritance, [x] =>
      is_base_of T (o_ty x)
      || match remove_cv T, offers (o_ty x) with
         | t_class _ d, Some (t_arith _, _) => existsb (fun ps => Nat.eqb (length ps) 1) (cls_ctors d)
         | _, _ => false
         end
  | inheritance, _ =>
      match remove_cv T with
      | t_class _ d =>
          forallb (fun x => match offers (o_ty x) with
                            | Some (t_arith _, _) => true
                            | _ => false
                            end) args
          && existsb (fun ps => Nat.eqb (length ps) (length args)) (cls_ctors d)
      | _ => false
      end
  end.

Definition initialize (k : init_kind) (A : ty) (args : list operand)
  : outcome ctor_fn :=
  match select (constructors k A args), alias_of A with
  | Selected (by_template c Args), Some (T, _, b) =>
      if ctor_static_assert b c Args && member_init_ok b T args
      then Selected (by_template c Args)
      else IllFormedBody (by_template c Args)
  | r, _ => r
  end.

(** The exception specification of the constructor a well-formed
    initialisation calls. *)
Definition initialize_noexcept (k : init_kind) (A : ty) (args : list operand)
  : option bool :=
  match initialize k A args, alias_of A with
  | Selected (by_template _ Args), Some (T, _, _) => Some (ctor_noexcept T Args)
  | Selected implicit_copy, Some (T, _, _) => Some (is_nothrow_copy_constructible T)
  | Selected implicit_move, Some (T, _, _) => Some (is_nothrow_move_constructible T)
  | _, _ => None
  end.

(** Implicit conversion of an operand to an alias type: copy-initialisation
    of a temporary. *)
Definition implicitly_convertible (x : operand) (A : ty) : bool :=
  compiles (initialize copy A [x]).

End Init.

(** *** Binary operators on alias operands *)

Module Operators.
Import Cxx strong Overload Init.

Inductive op_fn : Type :=
| member (op : binop) (Arg : ty)     (* the operator template of the alias body *)
| member_of_T (op : binop)           (* an operator the alias inherits from T *)
| nonmember_of_T (op : binop) (C : ty)
      (* an operator declared at namespace scope beside the class C *)
| implicit_copy_assign               (* A& operator=(const A&), implicitly declared *)
| implicit_move_assign               (* A& operator=(A&&), implicitly declared *)
| builtin (op : binop) (L R : ty).   (* a built-in operator at these operand types *)

Definition spelling (op : binop) : string :=
  match op with
  | b_assign op_assign => "="    | b_assign op_add_assign => "+="
  | b_assign op_sub_assign => "-=" | b_assign op_mul_assign => "*="
  | b_assign op_div_assign => "/=" | b_assign op_rem_assign => "%="
  | b_assign op_and_assign => "&=" | b_assign op_or_assign => "|="
  | b_assign op_xor_assign => "^=" | b_assign op_shl_assign => "<<="
  | b_assign op_shr_assign => ">>="
  | b_compare op_eq => "==" | b_compare op_ne => "!="
  | b_compare op_ge => ">=" | b_compare op_le => "<="
  | b_compare op_gt => ">"  | b_compare op_lt => "<"
  | b_logical op_land => "&&" | b_logical op_lor => "||"
  | b_arith op_add => "+" | b_arith op_sub => "-" | b_arith op_mul => "*"
  | b_arith op_div => "/" | b_arith op_rem => "%"
  end.

Definition is_assignment (op : binop) : bool :=
  match op with b_assign _ => true | _ => false end.

Definition comparable_pointers (U V : ty) : bool :=
  match standard_conversion U V, standard_conversion V U with
  | None, None => false
  | _, _ => true
  end.

(** Integral promotion of an operand of enumeration type. *)
Definition promoted (U : ty) : ty :=
  match U with t_enum _ => t_arith Int | _ => U end.

Definition same_pointee (U V : ty) : bool :=
  match U, V with
  | t_ptr u, t_ptr v => ty_eqb (remove_cv u) (remove_cv v)
  | _, _ => false
  end.

(** What converts contextually to [bool] as an operand of a built-in
    logical operator chosen by overload resolution. *)
Definition to_bool (W : ty) : bool :=
  match W with
  | t_arith _ | t_enum _ | t_ptr _ | t_memptr _ _ => true
  | _ => false
  end.

(** Where the built-in operators apply ([expr.add], [expr.mul], [expr.rel],
    [expr.eq], [expr.log.and], [expr.ass]); operand types without cv.  An
    operand of enumeration type takes part as the [int] it promotes to,
    except as the left operand of an assignment, which is modified in
    place. *)
Definition builtin_ok (op : binop) (U V : ty) : bool :=
  let U' := promoted U in
  let V' := promoted V in
  match op with
  | b_arith op_add =>
      (is_arithmetic U' && is_arithmetic V')
      || (is_object_pointer U && is_integral V')
      || (is_integral U' && is_object_pointer V)
  | b_arith op_sub =>
      (is_arithmetic U' && is_arithmetic V')
      || (is_object_pointer U && is_integral V')
      || (is_object_pointer U && same_pointee U V)
  | b_arith (op_mul | op_div) => is_arithmetic U' && is_arithmetic V'
  | b_arith op_rem => is_integral U' && is_integral V'
  | b_compare (op_eq | op_ne) =>
      (is_arithmetic U' && is_arithmetic V')
      || match U, V with
         | t_ptr _, t_ptr _ => comparable_pointers U V
         | (t_ptr _ | t_memptr _ _ | t_nullptr), t_nullptr => true
         | t_nullptr, (t_ptr _ | t_memptr _ _) => true
         | t_memptr _ _, t_memptr _ _ => ty_eqb U V
         | _, _ => false
         end
  | b_compare _ =>
      (is_arithmetic U' && is_arithmetic V')
      || match U, V with
         | t_ptr _, t_ptr _ => comparable_pointers U V
         | _, _ => false
         end
  | b_logical _ => to_bool U && to_bool V
  | b_assign op_assign =>
      match standard_conversion V U with Some _ => true | None => false end
  | b_assign (op_add_assign | op_sub_assign) =>
      (is_arithmetic U && is_arithmetic V')
      || (is_object_pointer U && is_integral V')
  | b_assign (op_mul_assign | op_div_assign) => is_arithmetic U && is_arithmetic V'
  | b_assign _ => is_integral U && is_integral V'
  end.

(** The implicit object parameter of a member of the alias body: an object
    of the macro struct reaches it by a derived-to-base conversion; a const
    member on a non-const object binds a more qualified reference; a
    non-const member does not accept a const object. *)
Definition object_ics (const_member : bool) (x : operand) : option ics :=
  if negb const_member && is_const (o_ty x) then None
  else match remove_cv (o_ty x) with
       | STRONG_ALIAS NAME T => Some (ics_base (alias T NAME))
       | _ => if const_member && negb (is_const (o_ty x)) then Some ics_added_cv
              else Some ics_identity
       end.

Definition const_ref_ics (y : operand) : ics :=
  if is_const (o_ty y) then ics_identity else ics_added_cv.

(** In the macro struct the implicitly declared assignment operators hide
    [operator=] of the base. *)
Definition hidden_in_macro (A : ty) (o : assign_op) : bool :=
  is_macro_struct A && match o with op_assign => true | _ => false end.

Definition hidden (A : ty) (op : binop) : bool :=
  match op with b_assign o => hidden_in_macro A o | _ => false end.

(** The operator templates of the alias body. *)
Definition member_candidates (op : binop) (x y : operand)
  : list (candidate op_fn) :=
  match alias_of (o_ty x) with
  | Some (T, Name, b) =>
      match declared b op with
      | Some mt =>
          let Arg := deduce_const_ref y in
          match object_ics (negb (is_assignment op)) x with
          | Some oi =>
              if negb (hidden (o_ty x) op) && mt_requires mt Name Arg
              then [ {| cand_fn := member op Arg;
                        cand_ics := [oi; const_ref_ics y];
                        cand_template := true; cand_pack := false;
                        cand_deleted := mt_deleted mt |} ]
              else []
          | None => []
          end
      | None =>
          match b, remove_cv T with
          | inheritance, t_class _ d =>
              if existsb (String.eqb (spelling op)) (cls_operators d)
                 && is_base_of T (o_ty y)
              then [ {| cand_fn := member_of_T op;
                        cand_ics := [ ics_base (remove_cv T);
                                      if ty_eqb (remove_cv (o_ty y)) (remove_cv T)
                                      then const_ref_ics y
                                      else ics_base (remove_cv T) ];
                        cand_template := false; cand_pack := false;
                        cand_deleted := false |} ]
              else []
          | _, _ => []
          end
      end
  | None => []
  end.

(** The implicitly declared copy and move assignment operators of the class
    of [x]: they accept the class itself, a class derived from it, and what
    converts to it implicitly. *)
Definition implicit_assign_candidates (op : binop) (x y : operand)
  : list (candidate op_fn) :=
  match op, alias_of (o_ty x) with
  | b_assign op_assign, Some (T, _, b) =>
      let A := remove_cv (o_ty x) in
      let deleted := match b with composition => is_const T | inheritance => false end in
      let related := is_base_of A (o_ty y) in
      let same := ty_eqb (remove_cv (o_ty y)) A in
      if is_const (o_ty x) then []
      else if related || implicitly_convertible y A then
        let wrap i := if related then (if same then i else ics_base A)
                      else ics_user i in
        [ {| cand_fn := implicit_copy_assign;
             cand_ics := [ ics_identity;
                           wrap (match o_cat y, related with
                                 | lvalue, true => const_ref_ics y
                                 | _, _ => ics_lvalue_ref_to_rvalue
                                 end) ];
             cand_template := false; cand_pack := false;
             cand_deleted := deleted |} ]
        ++ (if (if related
                then match o_cat y with
                     | rvalue => negb (is_const (o_ty y))
                     | lvalue => false
                     end
                else true)
            then [ {| cand_fn := implicit_move_assign;
                      cand_ics := [ ics_identity; wrap ics_identity ];
                      cand_template := false; cand_pack := false;
                      cand_deleted := deleted |} ]
            else [])
      else []
  | _, _ => []
  end.

(** The built-in candidate.  Of the built-in candidates only the one at the
    types the operands offer is listed: any other needs a further conversion
    on some operand.  A built-in assignment wants a modifiable scalar lvalue
    on the left, which no conversion function yields. *)
Definition builtin_candidates (op : binop) (x y : operand)
  : list (candidate op_fn) :=
  match offers (o_ty x), offers (o_ty y) with
  | Some (U, ux), Some (V, uy) =>
      let left_ok :=
        if is_assignment op
        then negb ux && negb (is_const (o_ty x))
             && match o_cat x with lvalue => true | rvalue => false end
        else true in
      if left_ok && builtin_ok op U V
      then [ {| cand_fn := builtin op U V;
                cand_ics := [ if ux then ics_user ics_identity else ics_identity;
                              if uy then ics_user ics_identity else ics_identity ];
                cand_template := false; cand_pack := false;
                cand_deleted := false |} ]
      else []
  | _, _ => []
  end.

(** Operators declared at namespace scope beside a user class [C], which
    argument-dependent lookup finds for an operand that is a [C] or derives
    from it (an alias with the inheritance body over [C] does).  Such an
    operator takes two objects of the class by reference, the right one to
    const and the left one to const unless the operator assigns; an operand
    of a derived class reaches it by a derived-to-base conversion.
    [operator=] is always a member. *)
Definition user_classes (t : ty) : list ty :=
  filter (fun c => match c with t_class _ _ => true | _ => false end)
         (remove_cv t :: bases (remove_cv t)).

Definition free_operator_of (op : binop) (C : ty) : bool :=
  match op, C with
  | b_assign op_assign, _ => false
  | _, t_class _ d => existsb (String.eqb (spelling op)) (cls_free_operators d)
  | _, _ => false
  end.

Definition class_ref_ics (const_param : bool) (C : ty) (x : operand) : option ics :=
  let same := ty_eqb (remove_cv (o_ty x)) C in
  if negb (is_base_of C (o_ty x)) then None
  else if const_param then
    Some (if negb same then ics_base C
          else if is_const (o_ty x) then ics_identity else ics_added_cv)
  else if modifiable_lvalue x then
    Some (if same then ics_identity else ics_base C)
  else None.

Definition nonmember_candidate (op : binop) (x y : operand) (C : ty)
  : list (candidate op_fn) :=
  if free_operator_of op C then
    match class_ref_ics (negb (is_assignment op)) C x, class_ref_ics true C y with
    | Some i, Some j =>
        [ {| cand_fn := nonmember_of_T op C;
             cand_ics := [i; j];
             cand_template := false; cand_pack := false;
             cand_deleted := false |} ]
    | _, _ => []
    end
  else [].

Definition nonmember_candidates (op : binop) (x y : operand)
  : list (candidate op_fn) :=
  let cx := user_classes (o_ty x) in
  let cy := filter (fun c => negb (existsb (ty_eqb c) cx)) (user_classes (o_ty y)) in
  flat_map (nonmember_candidate op x y) (cx ++ cy).

Definition operator_candidates (op : binop) (x y : operand)
  : list (candidate op_fn) :=
  member_candidates op x y
  ++ implicit_assign_candidates op x y
  ++ builtin_candidates op x y
  ++ nonmember_candidates op x y.

(** The body of a selected member template: [value @= arg] in the
    composition body (a built-in operator on [T], [arg] read through what it
    offers), [T::operator@(arg)] in the inheritance body. *)
Definition member_body_ok (op : binop) (x y : operand) : bool :=
  match alias_of (o_ty x) with
  | Some (T, _, composition) =>
      negb (is_const T)
      && match offers (o_ty y) with
         | Some (V, _) => builtin_ok op (remove_cv T) V
         | None => false
         end
  | Some (T, _, inheritance) =>
      match remove_cv T with
      | t_class _ d => existsb (String.eqb (spelling op)) (cls_operators d)
      | _ => false
      end
  | None => false
  end.

Definition resolve (op : binop) (x y : operand) : outcome op_fn :=
  match select (operator_candidates op x y) with
  | Selected (member o Arg) =>
      if member_body_ok op x y then Selected (member o Arg)
      else IllFormedBody (member o Arg)
  | r => r
  end.

(** The type and category of the result of a resolved operator.  A member
    of the alias body returns what its declaration says, in terms of the
    specialisation it is a member of; the implicitly declared assignment
    operators return the class of the object itself. *)
Definition result_of (x : operand) (f : op_fn) : option operand :=
  match f with
  | member op _ =>
      match alias_of (o_ty x) with
      | Some (T, Name, b) =>
          option_map (fun mt => result_operand T Name (mt_result mt)) (declared b op)
      | None => None
      end
  | implicit_copy_assign | implicit_move_assign => Some (lv (remove_cv (o_ty x)))
  | member_of_T _ | nonmember_of_T _ _ => None
  | builtin (b_arith _) (t_arith a) (t_arith b) => Some (rv (t_arith (usual_arithmetic a b)))
  | builtin (b_arith op_sub) (t_ptr _) (t_ptr _) => Some (rv (t_arith Long))
  | builtin (b_arith _) (t_ptr u) _ => Some (rv (t_ptr u))
  | builtin (b_arith _) _ (t_ptr u) => Some (rv (t_ptr u))
  | builtin (b_arith _) _ _ => None
  | builtin (b_assign _) L _ => Some (lv L)
  | builtin _ _ _ => Some (rv (t_arith Bool))
  end.

(** *** Increment and decrement of an alias operand *)

Inductive step_fn : Type :=
| member_step (o : incr_op).   (* operator++ / operator-- of the alias body *)

(** The candidates for [++x], [--x], [x++] and [x--]: the member of the
    alias body, when its requires-expression holds and the object is not
    const.  There is no other: a built-in operator wants a modifiable scalar
    lvalue, which no conversion function yields, and the operators of a
    class [T] are hidden by those the inheritance body declares. *)
Definition step_candidates (o : incr_op) (x : operand)
  : list (candidate step_fn) :=
  match alias_of (o_ty x) with
  | Some (T, _, _) =>
      match object_ics false x with
      | Some oi =>
          if incr_requires T o
          then [ {| cand_fn := member_step o;
                    cand_ics := [oi];
                    cand_template := false; cand_pack := false;
                    cand_deleted := false |} ]
          else []
      | None => []
      end
  | None => []
  end.

Definition prefix_of (o : incr_op) : incr_op :=
  match o with
  | pre_inc | post_inc => pre_inc
  | pre_dec | post_dec => pre_dec
  end.

Definition is_postfix (o : incr_op) : bool :=
  match o with post_inc | post_dec => true | _ => false end.

(** The bodies.  Composition: [++value; return *this;] and
    [return alias{value++};], which builds an alias from a [T] rvalue.
    Inheritance: the prefix operator of [T] on the sub-object, and for the
    postfix forms [alias tmp{ *this }; ++( *this ); return tmp;], which
    copies the alias and calls its own prefix operator. *)
Definition step_body_ok (o : incr_op) (x : operand) : bool :=
  match alias_of (o_ty x) with
  | Some (T, Name, composition) =>
      negb (is_postfix o)
      || compiles (initialize direct (alias T Name) [rv (remove_cv T)])
  | Some (T, Name, inheritance) =>
      negb (is_postfix o)
      || (compiles (initialize direct (alias T Name) [lv (alias T Name)])
          && incr_requires T (prefix_of o))
  | None => false
  end.

Definition resolve_step (o : incr_op) (x : operand) : outcome step_fn :=
  match select (step_candidates o x) with
  | Selected f => if step_body_ok o x then Selected f else IllFormedBody f
  | r => r
  end.

(** The result of a resolved increment or decrement, by the return type a
    variant of the header declares. *)
Definition step_result (incr_result : incr_op -> result_type)
    (o : incr_op) (x : operand) : option operand :=
  match alias_of (o_ty x) with
  | Some (T, Name, _) => Some (result_operand T Name (incr_result o))
  | None => None
  end.

End Operators.

(* ================================================================== *)
(** ** The run-time side: what the members do to the owned value *)

Module Runtime.
Import Cxx strong Overload Init Operators.

Inductive bit_op : Type := bit_and | bit_or | bit_xor | bit_shl | bit_shr.


(** The operations of a representation type [T] on its values.  [None] is
    an operation [T] does not have, or whose result is undefined or
    unspecified. *)
Class representation (V : Type) : Type := {
  T_init : V;                                   (* T{} *)
  T_copy : V -> V;                              (* T(v): a T copied or moved from a T *)
  T_eq : V -> V -> bool;                        (* T's own == *)
  T_lt : V -> V -> option bool;                 (* T's own < *)
  T_le : V -> V -> option bool;                 (* T's own <= *)
  T_true : V -> option bool;                    (* the value as a condition *)
  T_arith : arith_op -> V -> V -> option V;
  T_bits : bit_op -> V -> V -> option V;
  T_succ : V -> option V;                       (* the value after ++ *)
  T_pred : V -> option V                        (* the value after -- *)
}.

(** [unsigned int]: arithmetic modulo 2^32. *)
Definition wrap32 (z : Z) : Z := z mod 2 ^ 32.

#[export] Instance unsigned_int : representation Z := {
  T_init := 0%Z;
  T_copy a := a;
  T_eq := Z.eqb;
  T_lt a b := Some (Z.ltb a b);
  T_le a b := Some (Z.leb a b);
  T_true a := Some (negb (Z.eqb a 0));
  T_arith o a b :=
    match o with
    | op_add => Some (wrap32 (a + b))
    | op_sub => Some (wrap32 (a - b))
    | op_mul => Some (wrap32 (a * b))
    | op_div => if Z.eqb b 0 then None else Some (Z.div a b)
    | op_rem => if Z.eqb b 0 then None else Some (Z.modulo a b)
    end;
  T_bits o a b :=
    match o with
    | bit_and => Some (Z.land a b)
    | bit_or => Some (Z.lor a b)
    | bit_xor => Some (Z.lxor a b)
    | bit_shl => if Z.ltb b 32 then Some (wrap32 (Z.shiftl a b)) else None
    | bit_shr => if Z.ltb b 32 then Some (Z.shiftr a b) else None
    end;
  T_succ a := Some (wrap32 (a + 1));
  T_pred a := Some (wrap32 (a - 1))
}.

(** [int], 32 bits in two's complement: a result out of range is undefined
    behaviour. *)
Definition in_int (z : Z) : option Z :=
  if Z.leb (- 2 ^ 31) z && Z.ltb z (2 ^ 31) then Some z else None.

Definition to_int (z : Z) : Z := (z + 2 ^ 31) mod 2 ^ 32 - 2 ^ 31.

Definition shift_count (b : Z) : bool := Z.leb 0 b && Z.ltb b 32.

#[export] Instance signed_int : representation Z := {
  T_init := 0%Z;
  T_copy a := a;
  T_eq := Z.eqb;
  T_lt a b := Some (Z.ltb a b);
  T_le a b := Some (Z.leb a b);
  T_true a := Some (negb (Z.eqb a 0));
  T_arith o a b :=
    match o with
    | op_add => in_int (a + b)
    | op_sub => in_int (a - b)
    | op_mul => in_int (a * b)
    | op_div => if Z.eqb b 0 then None else in_int (Z.quot a b)
    | op_rem => if Z.eqb b 0 then None
                else match in_int (Z.quot a b) with
                     | Some _ => Some (Z.rem a b)
                     | None => None
                     end
    end;
  T_bits o a b :=
    match o with
    | bit_and => Some (Z.land a b)
    | bit_or => Some (Z.lor a b)
    | bit_xor => Some (Z.lxor a b)
    | bit_shl => if shift_count b then Some (to_int (Z.shiftl a b)) else None
    | bit_shr => if shift_count b then Some (Z.shiftr a b) else None
    end;
  T_succ a := in_int (a + 1);
  T_pred a := in_int (a - 1)
}.

(** [double]: IEEE binary64. *)
#[export] Instance double : representation float := {
  T_init := 0%float;
  T_copy a := a;
  T_eq := PrimFloat.eqb;
  T_lt a b := Some (PrimFloat.ltb a b);
  T_le a b := Some (PrimFloat.leb a b);
  T_true a := Some (negb (PrimFloat.eqb a 0%float));
  T_arith o a b :=
    match o with
    | op_add => Some (PrimFloat.add a b)
    | op_sub => Some (PrimFloat.sub a b)
    | op_mul => Some (PrimFloat.mul a b)
    | op_div => Some (PrimFloat.div a b)
    | op_rem => None
    end;
  T_bits _ _ _ := None;
  T_succ a := Some (PrimFloat.add a 1%float);
  T_pred a := Some (PrimFloat.sub a 1%float)
}.

(** An object pointer: null, or an element of an array object.  Pointers
    into different arrays, and a null pointer with any other, have no
    specified order. *)
Inductive pointer : Type := null | element (array : N) (index : Z).

Definition pointer_eqb (p q : pointer) : bool :=
  match p, q with
  | null, null => true
  | element a i, element b j => N.eqb a b && Z.eqb i j
  | _, _ => false
  end.

Definition pointer_order (strict : bool) (p q : pointer) : option bool :=
  match p, q with
  | null, null => Some (negb strict)
  | element a i, element b j =>
      if N.eqb a b then Some (if strict then Z.ltb i j else Z.leb i j) else None
  | _, _ => None
  end.

#[export] Instance object_pointer : representation pointer := {
  T_init := null;
  T_copy p := p;
  T_eq := pointer_eqb;
  T_lt := pointer_order true;
  T_le := pointer_order false;
  T_true p := Some (negb (pointer_eqb p null));
  T_arith _ _ _ := None;
  T_bits _ _ _ := None;
  T_succ p := match p with null => None | element a i => Some (element a (i + 1)) end;
  T_pred p := match p with null => None | element a i => Some (element a (i - 1)) end
}.

(** A user class with value semantics: three [double] coordinates, compared
    and added coordinate by coordinate, copied member by member; it has no
    order, no increment and no conversion to [bool]. *)
Record coordinates : Type := { coord_x : float; coord_y : float; coord_z : float }.

Definition coordinates_map2 (f : float -> float -> float) (a b : coordinates)
  : coordinates :=
  {| coord_x := f (coord_x a) (coord_x b); coord_y := f (coord_y a) (coord_y b); coord_z := f (coord_z a) (coord_z b) |}.

#[export] Instance vector3 : representation coordinates := {
  T_init := {| coord_x := 0%float; coord_y := 0%float; coord_z := 0%float |};
  T_copy a := {| coord_x := coord_x a; coord_y := coord_y a; coord_z := coord_z a |};
  T_eq a b := PrimFloat.eqb (coord_x a) (coord_x b) && PrimFloat.eqb (coord_y a) (coord_y b)
              && PrimFloat.eqb (coord_z a) (coord_z b);
  T_lt _ _ := None;
  T_le _ _ := None;
  T_true _ := None;
  T_arith o a b :=
    match o with
    | op_add => Some (coordinates_map2 PrimFloat.add a b)
    | op_sub => Some (coordinates_map2 PrimFloat.sub a b)
    | _ => None
    end;
  T_bits _ _ _ := None;
  T_succ _ := None;
  T_pred _ := None
}.

Section Bodies.
Context {V : Type} `{representation V}.

(** The value [lhs @= rhs] leaves in [lhs]. *)
Definition T_compound (o : assign_op) (a b : V) : option V :=
  match o with
  | op_assign => Some b
  | op_add_assign => T_arith op_add a b
  | op_sub_assign => T_arith op_sub a b
  | op_mul_assign => T_arith op_mul a b
  | op_div_assign => T_arith op_div a b
  | op_rem_assign => T_arith op_rem a b
  | op_and_assign => T_bits bit_and a b
  | op_or_assign => T_bits bit_or a b
  | op_xor_assign => T_bits bit_xor a b
  | op_shl_assign => T_bits bit_shl a b
  | op_shr_assign => T_bits bit_shr a b
  end.

Definition T_step (o : incr_op) (v : V) : option V :=
  match o with
  | pre_inc | post_inc => T_succ v
  | pre_dec | post_dec => T_pred v
  end.

(** An object of the composition body: [private: T value;]. *)
Record alias_object : Type := { value : V }.

(** What a call hands back. *)
Inductive returned : Type :=
| ret_this                         (* return *this;  as alias& *)
| ret_alias (a : alias_object)     (* a new alias object *)
| ret_value_ref                    (* a T& to this->value *)
| ret_T (v : V).                   (* a T *)

(** A member call: the object afterwards and the result. *)
Definition call : Type := option (alias_object * returned).

(* : value{ }   with the empty pack *)
Definition construct_default : alias_object := {| value := T_init |}.

(* : value{ std::forward<Arg>(arg) }   with arg converted to T *)
Definition construct (arg : V) : alias_object := {| value := arg |}.

(* constexpr operator T() const noexcept { return value; } *)
Definition operator_T (this : alias_object) : V := value this.

(* static_cast<T>(a) calls the conversion function *)
Definition static_cast_T (a : alias_object) : V := operator_T a.

(* alias& operator++() { ++value; return *this; }
   alias  operator++(int) { return alias{value++}; } *)
Definition increment (o : incr_op) (this : alias_object) : call :=
  match T_step o (value this) with
  | Some v' =>
      Some ({| value := v' |},
            match o with
            | pre_inc | pre_dec => ret_this
            | post_inc | post_dec => ret_alias (construct (value this))
            end)
  | None => None
  end.

(* alias& operator@=(const Arg& arg) { value @= arg; return *this; } *)
Definition compound_assign (o : assign_op) (this : alias_object) (arg : V) : call :=
  match T_compound o (value this) arg with
  | Some v' => Some ({| value := v' |}, ret_this)
  | None => None
  end.

(* the implicitly defined alias& operator=(const alias&): memberwise *)
Definition copy_assign (this other : alias_object) : call :=
  Some ({| value := value other |}, ret_this).

(** An object of the inheritance body: the [T] base sub-object (the marker
    bases are empty). *)
Record derived_object : Type := { T_subobject : V }.

(* : T(std::forward<Arg>(arg)) *)
Definition construct_derived (arg : V) : derived_object := {| T_subobject := arg |}.

(* the inherited interface: the object used as a T *)
Definition as_T (this : derived_object) : V := T_subobject this.

(* alias& operator@=(const Arg& arg)
     { return static_cast<alias&>(T::operator@=(arg)); } *)
Definition inherited_compound (o : assign_op) (this : derived_object) (arg : V)
  : option derived_object :=
  match T_compound o (T_subobject this) arg with
  | Some v' => Some {| T_subobject := v' |}
  | None => None
  end.

(* alias& operator++(): steps the T sub-object in place, returns *this *)
Definition inherited_prefix (o : incr_op) (this : derived_object)
  : option derived_object :=
  match T_step o (T_subobject this) with
  | Some v' => Some {| T_subobject := v' |}
  | None => None
  end.

(* alias operator++(int): alias tmp{ *this }; then the prefix operator of
   the alias itself on *this; return tmp; *)
Definition inherited_postfix (o : incr_op) (this : derived_object)
  : option (derived_object * derived_object) :=
  let tmp := construct_derived (as_T this) in
  match inherited_prefix o this with
  | Some this' => Some (this', tmp)
  | None => None
  end.


(** The object a well-formed initialisation of a composition alias
    produces; [vals] are the arguments as [T] values (an alias argument read
    through its [operator T()]). *)
Definition run_constructor (f : ctor_fn) (vals : list V) : option alias_object :=
  match f, vals with
  | by_template ctor_pack [], [] => Some construct_default
  | by_template _ [_], [v] => Some (construct v)
  | (implicit_copy | implicit_move), [v] => Some {| value := v |}
  | _, _ => None
  end.

Definition initialized (k : init_kind) (A : ty) (args : list operand)
    (vals : list V) : option alias_object :=
  match initialize k A args with
  | Selected f => run_constructor f vals
  | _ => None
  end.

(** The same for an alias with the inheritance body, from no argument or
    from one argument that is a [T] (or an object derived from [T], used as
    its [T] sub-object): [T()] value-initialises the base and
    [T(std::forward<Arg>(arg))] copies or moves it from the argument.  The
    other constructors of [T] are not given a value here. *)
Definition run_constructor_derived (f : ctor_fn) (vals : list V)
  : option derived_object :=
  match f, vals with
  | by_template ctor_pack [], [] => Some (construct_derived T_init)
  | by_template _ [_], [v] => Some (construct_derived (T_copy v))
  | (implicit_copy | implicit_move), [v] => Some (construct_derived (T_copy v))
  | _, _ => None
  end.

Definition initialized_derived (k : init_kind) (A : ty) (args : list operand)
    (vals : list V) : option derived_object :=
  match initialize k A args with
  | Selected f => run_constructor_derived f vals
  | _ => None
  end.

(** The value of a binary expression once overload resolution has settled
    on a built-in operator; [a] and [b] are the [T] values the operands
    offer (a scalar operand itself, an alias operand through
    [operator T()]).  [None]: the expression does not compile, or has no
    defined value. *)
Inductive result : Type := res_bool (b : bool) | res_T (v : V).

Definition evaluate (op : binop) (x y : operand) (a b : V) : option result :=
  match resolve op x y with
  | Selected (builtin (b_compare c) _ _) =>
      match c with
      | op_eq => Some (res_bool (T_eq a b))
      | op_ne => Some (res_bool (negb (T_eq a b)))
      | op_lt => option_map res_bool (T_lt a b)
      | op_gt => option_map res_bool (T_lt b a)
      | op_le => option_map res_bool (T_le a b)
      | op_ge => option_map res_bool (T_le b a)
      end
  | Selected (builtin (b_logical l) _ _) =>
      match T_true a, T_true b with
      | Some p, Some q =>
          Some (res_bool (match l with op_land => p && q | op_lor => p || q end))
      | _, _ => None
      end
  | Selected (builtin (b_arith o) _ _) => option_map res_T (T_arith o a b)
  | _ => None
  end.

End Bodies.


End Runtime.

(* ================================================================== *)
(** ** The types the statements range over *)

Module Shapes.
Import Cxx strong Overload.

(** An alias type with representation [T] and identity [Name]: the
    specialisation itself, or the struct the macro declares. *)
Inductive alias_type : ty -> ty -> marker -> Prop :=
| at_template T Name : alias_type (alias T Name) T Name
| at_macro T Name : alias_type (STRONG_ALIAS Name T) T Name.

(** A representation type and the body it selects: a scalar, or a user class
    that is not final. *)
Inductive rep_type : ty -> body -> Prop :=
| rep_scalar T : is_scalar T = true -> rep_type T composition
| rep_class n d : cls_final d = false -> rep_type (t_class n d) inheritance.

(** The shape of a scalar once cv is removed. *)
Inductive bare_scalar : ty -> Prop :=
| bs_arith a : bare_scalar (t_arith a)
| bs_nullptr : bare_scalar t_nullptr
| bs_enum n : bare_scalar (t_enum n)
| bs_ptr u : bare_scalar (t_ptr u)
| bs_memptr c u : bare_scalar (t_memptr c u).

(** An operand of (possibly const) type [A]. *)
Definition of_type (x : operand) (A : ty) : Prop := remove_cv (o_ty x) = A.

Definition comparison_or_logical (op : binop) : Prop :=
  match op with b_compare _ | b_logical _ => True | _ => False end.

(** The aliases of the header's own test program (lines 196-245), and the
    two of the scalar scenario. *)
Definition test_A : ty := STRONG_ALIAS "A" (t_arith Int).
Definition test_B : ty := STRONG_ALIAS "B" (t_arith Int).
Definition test_D : ty := STRONG_ALIAS "D" (t_ptr (t_arith Int)).
Definition Meters : ty := STRONG_ALIAS "Meters" (t_arith Double).
Definition Seconds : ty := STRONG_ALIAS "Seconds" (t_arith Double).

Definition vector_class : ty :=
  t_class "std::vector<double>"
    {| cls_final := false; cls_nothrow_copy := false; cls_nothrow_move := true;
       cls_steps := []; cls_ctors := [[ULong]; [ULong; Double]];
       cls_operators := ["="];
       cls_free_operators := ["=="; "!="; "<"; "<="; ">"; ">="] |}.

Definition test_C : ty := STRONG_ALIAS "C" (t_ptr vector_class).

(** Sample representation classes: one that is final, one that is not. *)
Definition final_class : ty :=
  t_class "Sealed"
    {| cls_final := true; cls_nothrow_copy := true; cls_nothrow_move := true;
       cls_steps := []; cls_ctors := []; cls_operators := [];
       cls_free_operators := [] |}.

Definition open_decl : class_decl :=
  {| cls_final := false; cls_nothrow_copy := true; cls_nothrow_move := true;
     cls_steps := []; cls_ctors := [[Double; Double; Double]];
     cls_operators := ["="; "+="; "-="; "=="; "!="];
     cls_free_operators := [] |}.

Definition open_class : ty := t_class "Vector3d" open_decl.

(** Sample classes with increment and decrement operators: one with all
    four, one with the postfix forms only. *)
Definition counter_decl : class_decl :=
  {| cls_final := false; cls_nothrow_copy := true; cls_nothrow_move := true;
     cls_steps := [pre_inc; pre_dec; post_inc; post_dec]; cls_ctors := [[Int]];
     cls_operators := ["="; "=="; "!="]; cls_free_operators := [] |}.

Definition counter_class : ty := t_class "Counter" counter_decl.

Definition postfix_only_decl : class_decl :=
  {| cls_final := false; cls_nothrow_copy := true; cls_nothrow_move := true;
     cls_steps := [post_inc; post_dec]; cls_ctors := [];
     cls_operators := ["="]; cls_free_operators := [] |}.

Definition postfix_only_class : ty := t_class "Cursor" postfix_only_decl.

Definition t_int : ty := t_arith Int.
Definition test_X : ty := STRONG_ALIAS "X" open_class.
Definition test_Y : ty := STRONG_ALIAS "Y" open_class.

End Shapes.

(* ================================================================== *)
(** ** Facts about the traits *)

Module Facts.
Import Cxx strong Overload Init Operators Shapes.

Lemma ty_eqb_refl (a : ty) : ty_eqb a a = true.
Proof. unfold ty_eqb. destruct (ty_eq_dec a a); congruence. Qed.

Lemma ty_eqb_eq (a b : ty) : ty_eqb a b = true <-> a = b.
Proof. unfold ty_eqb. destruct (ty_eq_dec a b); split; congruence. Qed.

Lemma ty_eqb_neq (a b : ty) : a <> b -> ty_eqb a b = false.
Proof. unfold ty_eqb. destruct (ty_eq_dec a b); congruence. Qed.

(** A scalar is never a class. *)
Lemma scalar_not_class (T : ty) : is_scalar T = true -> is_class T = false.
Proof. induction T; simpl; intros; try discriminate; auto. Qed.

Lemma instantiate_scalar (T : ty) :
  is_scalar T = true -> instantiate T = Body composition.
Proof.
  intros Hs. unfold instantiate, specializations. simpl.
  rewrite Hs, (scalar_not_class T Hs). reflexivity.
Qed.

Lemma instantiate_class (T : ty) :
  is_class T = true -> is_final T = false -> instantiate T = Body inheritance.
Proof.
  intros Hc Hf. unfold instantiate, specializations. simpl.
  rewrite Hc, Hf. simpl.
  destruct (is_scalar T) eqn:Hs; [|reflexivity].
  rewrite (scalar_not_class T Hs) in Hc. discriminate.
Qed.

Lemma instantiate_not_ambiguous (T : ty) : instantiate T <> Ambiguous.
Proof.
  unfold instantiate, specializations. simpl.
  destruct (is_scalar T) eqn:Hs.
  - rewrite (scalar_not_class T Hs). simpl. discriminate.
  - destruct (is_class T && negb (is_final T)); discriminate.
Qed.

Lemma instantiate_final_class (T : ty) :
  is_class T = true -> is_final T = true -> instantiate T = Incomplete.
Proof.
  intros Hc Hf. unfold instantiate, specializations. simpl.
  rewrite Hc, Hf. simpl.
  destruct (is_scalar T) eqn:Hs; [|reflexivity].
  rewrite (scalar_not_class T Hs) in Hc. discriminate.
Qed.

Lemma remove_cv_scalar (T : ty) : is_scalar T = true -> bare_scalar (remove_cv T).
Proof. induction T; simpl; intros; try discriminate; auto; constructor. Qed.

Lemma bare_scalar_is_scalar (U : ty) : bare_scalar U -> is_scalar U = true.
Proof. destruct 1; reflexivity. Qed.

Lemma bare_scalar_remove_cv (U : ty) : bare_scalar U -> remove_cv U = U.
Proof. destruct 1; reflexivity. Qed.

Lemma remove_cv_idem (T : ty) : remove_cv (remove_cv T) = remove_cv T.
Proof. induction T; simpl; auto. Qed.

Lemma is_class_remove_cv (T : ty) : is_class (remove_cv T) = is_class T.
Proof. induction T; simpl; auto. Qed.

Lemma is_scalar_remove_cv (T : ty) : is_scalar (remove_cv T) = is_scalar T.
Proof. induction T; simpl; auto. Qed.

Lemma instantiate_rep (T : ty) (b : body) : rep_type T b -> instantiate T = Body b.
Proof.
  destruct 1.
  - now apply instantiate_scalar.
  - apply instantiate_class; simpl; auto.
Qed.

(** A specialisation over a representation type has a body, so it is a
    complete class that is not final. *)
Lemma alias_not_final (T : ty) (b : body) (Name : marker) :
  rep_type T b -> is_final (alias T Name) = false.
Proof.
  destruct 1 as [T Hs|n d Hf]; cbn [is_final].
  - now rewrite Hs.
  - cbn [is_scalar is_class is_final]. now rewrite Hf.
Qed.

Lemma rep_not_strong (T : ty) (b : body) :
  rep_type T b ->
  T <> is_alias_t /\ (forall N, T <> alias_name N)
  /\ (forall U N, T <> alias U N) /\ (forall U N, T <> STRONG_ALIAS N U).
Proof.
  destruct 1 as [T Hs|n d Hf].
  - repeat split; intros; intro E; subst; discriminate.
  - repeat split; intros; discriminate.
Qed.

Lemma rep_bases (T : ty) (b : body) :
  rep_type T b -> b = inheritance -> bases T = [].
Proof. destruct 1; intros; try discriminate; reflexivity. Qed.

Lemma bases_alias (T : ty) (b : body) (Name : marker) :
  rep_type T b ->
  bases (alias T Name)
  = match b with
    | composition => [alias_name Name; is_alias_t]
    | inheritance => [alias_name Name; is_alias_t; T]
    end.
Proof.
  intros HT. simpl. unfold alias_bases. rewrite (instantiate_rep T b HT).
  destruct b; [reflexivity|]. now rewrite (rep_bases T inheritance HT).
Qed.

Lemma bases_macro (T : ty) (b : body) (Name : marker) :
  rep_type T b -> bases (STRONG_ALIAS Name T) = alias T Name :: bases (alias T Name).
Proof. reflexivity. Qed.

Lemma alias_type_remove_cv (A T : ty) (Name : marker) :
  alias_type A T Name -> remove_cv A = A.
Proof. destruct 1; reflexivity. Qed.

Lemma alias_type_class (A T : ty) (Name : marker) :
  alias_type A T Name -> is_class A = true.
Proof. destruct 1; reflexivity. Qed.

Lemma ty_eqb_alias_name (N M : marker) :
  ty_eqb (alias_name N) (alias_name M) = String.eqb N M.
Proof.
  destruct (String.eqb N M) eqn:E.
  - apply String.eqb_eq in E. subst. apply ty_eqb_refl.
  - apply String.eqb_neq in E. apply ty_eqb_neq. congruence.
Qed.

(** The alias derives from [is_alias_t] and from [alias_name<Name>] for its
    own [Name] only. *)
Lemma base_is_alias_t (A T : ty) (b : body) (Name : marker) :
  alias_type A T Name -> rep_type T b -> is_base_of is_alias_t A = true.
Proof.
  intros HA HT. unfold is_base_of.
  rewrite (alias_type_class A T Name HA), (alias_type_remove_cv A T Name HA).
  destruct HA; rewrite ?bases_macro with (b := b) by assumption;
    rewrite (bases_alias T b _ HT); destruct b; simpl;
    rewrite ?ty_eqb_refl, ?orb_true_r; reflexivity.
Qed.

Lemma base_alias_name (A T : ty) (b : body) (Name N : marker) :
  alias_type A T Name -> rep_type T b ->
  is_base_of (alias_name N) A = String.eqb N Name.
Proof.
  intros HA HT. unfold is_base_of.
  rewrite (alias_type_class A T Name HA), (alias_type_remove_cv A T Name HA).
  destruct (rep_not_strong T b HT) as (_ & Hn & _).
  assert (HTn : ty_eqb (alias_name N) T = false) by (apply ty_eqb_neq; auto).
  destruct HA; rewrite ?bases_macro with (b := b) by assumption;
    rewrite (bases_alias T b _ HT); destruct b; simpl;
    rewrite ?ty_eqb_alias_name, ?HTn;
    repeat (rewrite ty_eqb_neq by discriminate); simpl;
    rewrite ?orb_false_r; reflexivity.
Qed.

(** Deduction on an operand that is not a reference. *)
Lemma rm_cvref_forwarding (x : operand) :
  remove_reference (o_ty x) = o_ty x ->
  rm_cvref_t (deduce_forwarding x) = remove_cv (o_ty x).
Proof.
  intros Hr. unfold rm_cvref_t, remove_cvref, deduce_forwarding.
  destruct (o_cat x); simpl; congruence.
Qed.

Lemma not_reference (t : ty) :
  is_class (remove_cv t) = true \/ is_scalar (remove_cv t) = true ->
  remove_reference t = t.
Proof. destruct t; simpl; intros [E|E]; try discriminate; reflexivity. Qed.

Lemma of_type_not_reference (x : operand) (A T : ty) (Name : marker) :
  alias_type A T Name -> of_type x A -> remove_reference (o_ty x) = o_ty x.
Proof.
  intros HA Hx. apply not_reference. left. rewrite Hx.
  exact (alias_type_class A T Name HA).
Qed.

(** The three concepts on an operand whose type is an alias over a
    representation type. *)
Section Concepts.
Variables (A T : ty) (b : body) (Name : marker).
Hypothesis HA : alias_type A T Name.
Hypothesis HT : rep_type T b.

Lemma is_alias_alias : is_alias A = true.
Proof.
  unfold is_alias, rm_cvref_t, remove_cvref.
  rewrite (not_reference A), (alias_type_remove_cv A T Name HA).
  - exact (base_is_alias_t A T b Name HA HT).
  - left. rewrite (alias_type_remove_cv A T Name HA).
    exact (alias_type_class A T Name HA).
Qed.

Lemma is_same_alias_alias (N : marker) :
  is_same_alias A N = String.eqb N Name.
Proof.
  unfold is_same_alias. rewrite is_alias_alias. simpl.
  unfold rm_cvref_t, remove_cvref.
  rewrite (not_reference A), (alias_type_remove_cv A T Name HA).
  - exact (base_alias_name A T b Name N HA HT).
  - left. rewrite (alias_type_remove_cv A T Name HA).
    exact (alias_type_class A T Name HA).
Qed.

Lemma is_different_alias_alias (N : marker) :
  is_different_alias A N = negb (String.eqb N Name).
Proof.
  unfold is_different_alias. rewrite is_alias_alias. simpl.
  unfold rm_cvref_t, remove_cvref.
  rewrite (not_reference A), (alias_type_remove_cv A T Name HA).
  - now rewrite (base_alias_name A T b Name N HA HT).
  - left. rewrite (alias_type_remove_cv A T Name HA).
    exact (alias_type_class A T Name HA).
Qed.

Lemma alias_of_alias : alias_of A = Some (T, Name, b).
Proof.
  unfold alias_of. rewrite (alias_type_remove_cv A T Name HA).
  destruct HA; rewrite (instantiate_rep _ b HT); reflexivity.
Qed.

End Concepts.

(** Operands of alias type. *)
Section AliasOperand.
Variables (A T : ty) (b : body) (Name : marker) (x : operand).
Hypothesis HA : alias_type A T Name.
Hypothesis HT : rep_type T b.
Hypothesis Hx : of_type x A.

Lemma alias_of_operand : alias_of (o_ty x) = Some (T, Name, b).
Proof.
  rewrite <- (alias_of_alias A T b Name HA HT).
  unfold alias_of. rewrite Hx, (alias_type_remove_cv A T Name HA). reflexivity.
Qed.

Lemma operand_not_scalar : is_scalar (o_ty x) = false.
Proof.
  rewrite <- is_scalar_remove_cv, Hx.
  destruct (is_scalar A) eqn:E; [|reflexivity].
  apply scalar_not_class in E.
  rewrite (alias_type_class A T Name HA) in E. discriminate.
Qed.

Lemma macro_struct_operand : is_macro_struct (o_ty x) = is_macro_struct A.
Proof.
  unfold is_macro_struct. now rewrite Hx, (alias_type_remove_cv A T Name HA).
Qed.

Lemma deduce_const_ref_operand : deduce_const_ref x = A.
Proof. exact Hx. Qed.

(** The implicit object parameter, for an operand of the alias. *)
Lemma object_ics_operand (const_member : bool) :
  object_ics const_member x
  = if negb const_member && is_const (o_ty x) then None
    else Some (if is_macro_struct A then ics_base (alias T Name)
               else if const_member && negb (is_const (o_ty x)) then ics_added_cv
               else ics_identity).
Proof.
  clear HT. unfold object_ics, is_macro_struct.
  rewrite (alias_type_remove_cv A T Name HA), Hx.
  destruct HA; destruct const_member, (is_const (o_ty x)); reflexivity.
Qed.

Lemma is_alias_forwarding : is_alias (deduce_forwarding x) = true.
Proof.
  assert (E : rm_cvref_t (deduce_forwarding x) = A).
  { rewrite rm_cvref_forwarding; [exact Hx|].
    exact (of_type_not_reference x A T Name HA Hx). }
  unfold is_alias. rewrite E.
  exact (base_is_alias_t A T b Name HA HT).
Qed.

End AliasOperand.

Lemma offers_alias_operand (A T : ty) (Name : marker) (x : operand) :
  alias_type A T Name -> is_scalar T = true -> of_type x A ->
  offers (o_ty x) = Some (remove_cv T, true).
Proof.
  intros HA Hs Hx. unfold offers.
  rewrite (operand_not_scalar A T Name x HA Hx).
  now rewrite (alias_of_operand A T composition Name x HA (rep_scalar T Hs) Hx).
Qed.

Lemma offers_scalar_operand (x : operand) :
  is_scalar (o_ty x) = true -> offers (o_ty x) = Some (remove_cv (o_ty x), false).
Proof. intros Hs. unfold offers. now rewrite Hs. Qed.

(** A type that is not a class is no alias. *)
Lemma is_alias_not_class (U : ty) :
  is_class (rm_cvref_t U) = false -> is_alias U = false.
Proof.
  intros Hc. unfold is_alias, is_base_of. rewrite Hc. reflexivity.
Qed.

Lemma is_alias_user_class (n : string) (d : class_decl) :
  is_alias (t_class n d) = false.
Proof. reflexivity. Qed.

Lemma pointer_conversion_refl (u : ty) : pointer_conversion u u = true.
Proof.
  unfold pointer_conversion. rewrite ty_eqb_refl.
  destruct (is_const u); reflexivity.
Qed.

(** *** Operators found at namespace scope *)

Lemma user_classes_scalar (U : ty) : is_scalar U = true -> user_classes U = [].
Proof.
  intros Hs. unfold user_classes. destruct (remove_cv_scalar U Hs); reflexivity.
Qed.

(** The one user class among the bases of an alias is the representation
    class of the inheritance body. *)
Lemma user_classes_alias (A T : ty) (b : body) (Name : marker) :
  alias_type A T Name -> rep_type T b ->
  user_classes A = match b with composition => [] | inheritance => [T] end.
Proof.
  intros HA HT. unfold user_classes.
  rewrite (alias_type_remove_cv A T Name HA).
  destruct HA; rewrite ?bases_macro with (b := b) by assumption;
    rewrite (bases_alias _ b _ HT); destruct HT as [T Hs|n d Hf]; reflexivity.
Qed.

Lemma user_classes_operand (A T : ty) (b : body) (Name : marker) (x : operand) :
  alias_type A T Name -> rep_type T b -> of_type x A ->
  user_classes (o_ty x) = match b with composition => [] | inheritance => [T] end.
Proof.
  intros HA HT Hx. rewrite <- (user_classes_alias A T b Name HA HT).
  unfold user_classes. now rewrite Hx, (alias_type_remove_cv A T Name HA).
Qed.

Lemma flat_map_nil {X Y} (f : X -> list Y) (l : list X) :
  (forall c, In c l -> f c = []) -> flat_map f l = [].
Proof.
  induction l as [|c l IH]; intros H; [reflexivity|].
  simpl. rewrite (H c) by (now left). apply IH. intros c' Hc. apply H. now right.
Qed.

Lemma nonmember_candidates_nil (op : binop) (x y : operand) :
  (forall C, In C (user_classes (o_ty x)) \/ In C (user_classes (o_ty y)) ->
             nonmember_candidate op x y C = []) ->
  nonmember_candidates op x y = [].
Proof.
  intros H. unfold nonmember_candidates. apply flat_map_nil.
  intros C HC. apply H. apply in_app_or in HC. destruct HC as [HC|HC]; [now left|].
  right. apply filter_In in HC. tauto.
Qed.

(** No user class on either side: nothing is found. *)
Lemma nonmember_no_class (op : binop) (x y : operand) :
  user_classes (o_ty x) = [] -> user_classes (o_ty y) = [] ->
  nonmember_candidates op x y = [].
Proof.
  intros Hx Hy. apply nonmember_candidates_nil. rewrite Hx, Hy.
  intros C [[]|[]].
Qed.

(** A namespace-scope assignment operator does not take a const object. *)
Lemma nonmember_const_object (o : assign_op) (x y : operand) :
  is_const (o_ty x) = true -> nonmember_candidates (b_assign o) x y = [].
Proof.
  intros Hc. apply nonmember_candidates_nil. intros C _.
  unfold nonmember_candidate, class_ref_ics. cbn [is_assignment negb].
  unfold modifiable_lvalue. rewrite Hc.
  destruct (free_operator_of (b_assign o) C); [|reflexivity].
  destruct (negb (is_base_of C (o_ty x))); [reflexivity|].
  now destruct (o_cat x).
Qed.

(** [operator=] is never found at namespace scope. *)
Lemma nonmember_simple_assignment (x y : operand) :
  nonmember_candidates (b_assign op_assign) x y = [].
Proof. apply nonmember_candidates_nil. intros C _. reflexivity. Qed.

(** A class that is no base of one of the operands contributes nothing. *)
Lemma nonmember_candidate_unrelated (op : binop) (x y : operand) (C : ty) :
  is_base_of C (o_ty x) = false \/ is_base_of C (o_ty y) = false ->
  nonmember_candidate op x y C = [].
Proof.
  intros H. unfold nonmember_candidate, class_ref_ics.
  destruct (free_operator_of op C); [|reflexivity].
  destruct H as [-> | ->]; cbn [negb]; [reflexivity|].
  now destruct (if negb (is_base_of C (o_ty x)) then _ else _).
Qed.

Lemma user_classes_are_classes (t C : ty) :
  In C (user_classes t) -> exists n d, C = t_class n d.
Proof.
  unfold user_classes. intros H. apply filter_In in H. destruct H as (_ & H).
  destruct C; try discriminate. eauto.
Qed.

(** An operand that derives from no user class takes part in no
    namespace-scope operator, on either side. *)
Lemma nonmember_needs_class (op : binop) (x y : operand) :
  (forall n d, is_base_of (t_class n d) (o_ty x) = false) ->
  nonmember_candidates op x y = [] /\ nonmember_candidates op y x = [].
Proof.
  intros H. split; apply nonmember_candidates_nil; intros C HC;
    assert (HC' : exists n d, C = t_class n d)
      by (destruct HC as [HC|HC]; eapply user_classes_are_classes; exact HC);
    destruct HC' as (n & d & ->); apply nonmember_candidate_unrelated;
    [left | right]; apply H.
Qed.

Lemma is_base_of_operand (C : ty) (x : operand) (A : ty) :
  of_type x A -> is_base_of C (o_ty x) = is_base_of C A.
Proof.
  intros Hx. unfold is_base_of.
  now rewrite <- Hx, is_class_remove_cv, remove_cv_idem.
Qed.

Lemma user_class_not_base_of_scalar_alias
    (A T : ty) (Name : marker) (n : string) (d : class_decl) :
  alias_type A T Name -> is_scalar T = true ->
  is_base_of (t_class n d) A = false.
Proof.
  intros HA Hs. unfold is_base_of.
  rewrite (alias_type_remove_cv A T Name HA), (alias_type_class A T Name HA).
  cbn [remove_cv is_class andb].
  destruct HA; rewrite ?bases_macro with (b := composition) by (now constructor);
    rewrite (bases_alias _ composition _ (rep_scalar _ Hs)); cbn [existsb];
    repeat (rewrite ty_eqb_neq by discriminate); reflexivity.
Qed.

(** Neither an operand of a scalar alias nor a scalar operand takes part in
    a namespace-scope operator. *)
Lemma nonmember_scalar_alias
    (A T : ty) (Name : marker) (x y : operand) (op : binop) :
  alias_type A T Name -> is_scalar T = true -> of_type x A ->
  nonmember_candidates op x y = [] /\ nonmember_candidates op y x = [].
Proof.
  intros HA Hs Hx. apply nonmember_needs_class. intros n d.
  rewrite (is_base_of_operand _ x A Hx).
  exact (user_class_not_base_of_scalar_alias A T Name n d HA Hs).
Qed.

Lemma nonmember_scalar (x y : operand) (op : binop) :
  is_scalar (o_ty x) = true ->
  nonmember_candidates op x y = [] /\ nonmember_candidates op y x = [].
Proof.
  intros Hs. apply nonmember_needs_class. intros n d.
  unfold is_base_of. rewrite (scalar_not_class _ Hs). now rewrite andb_false_r.
Qed.

Lemma free_operator_scalar (op : binop) (T : ty) :
  is_scalar T = true -> free_operator_of op T = false.
Proof.
  intros Hs. unfold free_operator_of.
  destruct T; try discriminate; destruct op as [[]| | |]; reflexivity.
Qed.

(** A user class is a base of an alias exactly when it is the
    representation class of the inheritance body. *)
Lemma user_class_base_of_alias
    (A T : ty) (b : body) (Name : marker) (n : string) (d : class_decl) :
  alias_type A T Name -> rep_type T b ->
  is_base_of (t_class n d) A
  = match b with
    | composition => false
    | inheritance => ty_eqb (t_class n d) T
    end.
Proof.
  intros HA HT. unfold is_base_of.
  rewrite (alias_type_remove_cv A T Name HA), (alias_type_class A T Name HA).
  cbn [remove_cv is_class andb].
  destruct HA; rewrite ?bases_macro with (b := b) by assumption;
    rewrite (bases_alias _ b _ HT); destruct b; cbn [existsb];
    repeat (rewrite ty_eqb_neq by discriminate); cbn [orb];
    rewrite ?orb_false_r; reflexivity.
Qed.



Lemma alias_is_no_user_class (A T : ty) (Name : marker) (n : string) (d : class_decl) :
  alias_type A T Name -> ty_eqb A (t_class n d) = false.
Proof. intros HA. apply ty_eqb_neq. destruct HA; discriminate. Qed.

(** The namespace-scope candidates between operands of two aliases: the
    operator of the representation class, when both aliases derive from that
    one class and the left operand binds to its first parameter. *)
Lemma nonmember_between_aliases
    (A B TA TB : ty) (bA bB : body) (NameA NameB : marker)
    (x y : operand) (op : binop) :
  alias_type A TA NameA -> rep_type TA bA ->
  alias_type B TB NameB -> rep_type TB bB ->
  of_type x A -> of_type y B ->
  nonmember_candidates op x y
  = if free_operator_of op TA && ty_eqb TA TB
       && (negb (is_assignment op) || modifiable_lvalue x)
    then [ {| cand_fn := nonmember_of_T op TA;
              cand_ics := [ics_base TA; ics_base TA];
              cand_template := false; cand_pack := false;
              cand_deleted := false |} ]
    else [].
Proof.
  intros HA HTA HB HTB Hx Hy.
  destruct HTA as [TA HsA|n d Hf].
  - rewrite (free_operator_scalar op TA HsA). cbn [andb].
    exact (proj1 (nonmember_scalar_alias A TA NameA x y op HA HsA Hx)).
  - destruct HTB as [TB HsB|n' d' Hf'].
    + assert (E : ty_eqb (t_class n d) TB = false).
      { apply ty_eqb_neq. intros <-. discriminate. }
      rewrite E, andb_false_r. cbn [andb].
      exact (proj2 (nonmember_scalar_alias B TB NameB y x op HB HsB Hy)).
    + pose proof (rep_class n d Hf) as HTA.
      pose proof (rep_class n' d' Hf') as HTB.
      unfold nonmember_candidates.
      rewrite (user_classes_operand A _ inheritance NameA x HA HTA Hx).
      rewrite (user_classes_operand B _ inheritance NameB y HB HTB Hy).
      cbn [filter existsb orb app flat_map].
      assert (Hbx : forall n0 d0, is_base_of (t_class n0 d0) (o_ty x)
                                  = ty_eqb (t_class n0 d0) (t_class n d)).
      { intros n0 d0. rewrite (is_base_of_operand _ x A Hx).
        exact (user_class_base_of_alias A _ inheritance NameA n0 d0 HA HTA). }
      assert (Hby : forall n0 d0, is_base_of (t_class n0 d0) (o_ty y)
                                  = ty_eqb (t_class n0 d0) (t_class n' d')).
      { intros n0 d0. rewrite (is_base_of_operand _ y B Hy).
        exact (user_class_base_of_alias B _ inheritance NameB n0 d0 HB HTB). }
      destruct (ty_eq_dec (t_class n d) (t_class n' d')) as [E|E].
      * rewrite <- E. rewrite !ty_eqb_refl. cbn [negb orb andb app flat_map].
        rewrite app_nil_r. unfold nonmember_candidate, class_ref_ics. cbv zeta.
        rewrite Hbx, Hby, <- E, !ty_eqb_refl, !Hx, !Hy. cbn [negb].
        rewrite (alias_is_no_user_class A _ NameA n d HA).
        rewrite (alias_is_no_user_class B _ NameB n d HB). cbn [negb].
        destruct (free_operator_of op (t_class n d)); [|reflexivity].
        destruct (negb (is_assignment op)); cbn [orb andb]; [reflexivity|].
        now destruct (modifiable_lvalue x).
      * rewrite (ty_eqb_neq _ _ E).
        rewrite (ty_eqb_neq (t_class n' d') (t_class n d)) by congruence.
        rewrite andb_false_r. cbn [negb orb andb app flat_map].
        rewrite !nonmember_candidate_unrelated; [reflexivity| |].
        -- left. rewrite Hbx. apply ty_eqb_neq. congruence.
        -- right. rewrite Hby. now apply ty_eqb_neq.
Qed.

End Facts.

(* ================================================================== *)
(** ** Facts about the choice of the best viable function *)

Module Selection.
Import Cxx strong Overload Shapes Facts.

Lemma ics_nearer_irrefl (c : ics) : ics_nearer c c = false.
Proof.
  induction c; simpl; auto.
  now rewrite ty_eqb_refl, andb_false_r.
Qed.


Lemma ics_ltb_irrefl (c : ics) : ics_ltb c c = false.
Proof.
  unfold ics_ltb.
  now rewrite Nat.ltb_irrefl, ics_nearer_irrefl, andb_false_r.
Qed.

Lemma all2_leb_refl (l : list ics) : all2 ics_leb l l = true.
Proof.
  induction l; simpl; auto. unfold ics_leb at 1. now rewrite ics_ltb_irrefl.
Qed.

Lemma any2_ltb_irrefl (l : list ics) : any2 ics_ltb l l = false.
Proof. induction l; simpl; auto. now rewrite ics_ltb_irrefl. Qed.

Lemma better_irrefl {F} (c : candidate F) : better c c = false.
Proof.
  unfold better, tie_break. rewrite all2_leb_refl, any2_ltb_irrefl.
  rewrite xorb_nilpotent. simpl. now destruct (cand_pack c).
Qed.


Lemma select_single {F} (c : candidate F) : select [c] = chosen c.
Proof. unfold select. simpl. rewrite better_irrefl. reflexivity. Qed.

Lemma select_first_of_two {F} (c d : candidate F) :
  better c d = true -> better d c = false -> select [c; d] = chosen c.
Proof.
  intros Hcd Hdc. unfold select. simpl.
  rewrite !better_irrefl, Hcd, Hdc. reflexivity.
Qed.

Lemma select_second_of_two {F} (c d : candidate F) :
  better d c = true -> better c d = false -> select [c; d] = chosen d.
Proof.
  intros Hdc Hcd. unfold select. simpl.
  rewrite !better_irrefl, Hcd, Hdc. reflexivity.
Qed.

End Selection.

(* ================================================================== *)
(** ** The header's own test program

    The expressions of [main] under [STRONG_ALIAS_TEST] (lines 196-263), each
    with the verdict the header records for it. *)

Module TestProgram.
Import Cxx strong Overload Init Operators Shapes.

(** The lines marked as compiling. *)
Lemma accepted_lines :
  (* 198 *) compiles (initialize direct test_A []) = true
  /\ compiles (initialize direct test_A [rv (t_arith SChar)]) = true
  (* 199 *) /\ compiles (initialize direct test_A [lv test_A]) = true
  (* 200 *) /\ compiles (initialize copy test_A [lv test_A]) = true
  (* 201 *) /\ resolve (b_arith op_add) (lv test_A) (lv test_A)
               = Selected (builtin (b_arith op_add) t_int t_int)
            /\ compiles (initialize copy test_A [rv t_int]) = true
  (* 202 *) /\ compiles (resolve (b_assign op_add_assign) (lv test_A) (lv test_A)) = true
  (* 203 *) /\ compiles (resolve (b_compare op_eq) (lv test_A) (lv test_A)) = true
  (* 204 *) /\ compiles (resolve_step post_inc (lv test_A)) = true
            /\ compiles (resolve_step pre_inc (lv test_A)) = true
            /\ compiles (resolve_step pre_dec (lv test_A)) = true
            /\ compiles (resolve_step post_dec (lv test_A)) = true
  (* 205 *) /\ compiles (resolve (b_compare op_eq) (lv test_A) (rv t_int)) = true
  (* 207 *) /\ resolve (b_arith op_add) (lv test_B) (rv t_int)
               = Selected (builtin (b_arith op_add) t_int t_int)
            /\ compiles (resolve (b_assign op_assign) (lv test_A) (rv t_int)) = true
  (* 208 *) /\ compiles (initialize direct test_B [lv test_A]) = true
  (* 209 *) /\ compiles (initialize direct test_B [rv t_int]) = true
  (* 222 *) /\ compiles (initialize direct test_D [rv (t_ptr t_int)]) = true
            /\ deref_requires (t_ptr t_int) = true
  (* 225 *) /\ compiles (resolve (b_assign op_add_assign) (lv test_D) (rv t_int)) = true
            /\ compiles (resolve (b_assign op_sub_assign) (lv test_D) (rv t_int)) = true
  (* 226 *) /\ compiles (resolve_step post_inc (lv test_D)) = true
            /\ compiles (resolve_step post_dec (lv test_D)) = true
  (* 227 *) /\ compiles (resolve (b_compare op_eq) (lv test_D) (rv t_nullptr)) = true
            /\ compiles (resolve (b_compare op_ne) (lv test_D) (rv t_nullptr)) = true
  (* 236 *) /\ arrow_requires (t_ptr vector_class) = true
  (* 238 *) /\ compiles (resolve (b_assign op_add_assign) (lv test_C) (rv t_int)) = true
  (* 246 *) /\ compiles (initialize direct test_X []) = true
            /\ compiles (initialize direct test_X
                            [rv (t_arith Double); rv (t_arith Double); rv (t_arith Double)])
               = true
  (* 247 *) /\ compiles (initialize direct test_X [lv test_X]) = true
  (* 250 *) /\ compiles (resolve (b_assign op_assign) (lv test_X) (lv test_X)) = true
  (* 252 *) /\ compiles (resolve (b_assign op_add_assign) (lv test_X) (lv test_X)) = true
  (* 253 *) /\ compiles (resolve (b_compare op_eq) (lv test_X) (lv test_X)) = true
  (* 255 *) /\ compiles (initialize direct test_Y [lv test_X]) = true.
Proof. repeat split. Qed.

(** The lines marked as rejected, each with the reason. *)
Lemma rejected_lines :
  (* 210 *) resolve (b_assign op_add_assign) (lv test_A) (lv test_B) = NoViable
  (* 211 *) /\ resolve (b_compare op_eq) (lv test_A) (lv test_B)
               = UsesDeleted (member (b_compare op_eq) test_B)
  (* 212 *) /\ initialize copy test_B [lv test_A] = NoViable
  (* 213 *) /\ resolve (b_assign op_assign) (lv test_B) (lv test_A) = NoViable
  (* 216 *) /\ initialize copy test_B [rv test_A] = NoViable
  (* 223 *) /\ arrow_requires (t_ptr t_int) = false
  (* 229 *) /\ resolve (b_assign op_mul_assign) (lv test_D) (rv t_int)
               = IllFormedBody (member (b_assign op_mul_assign) t_int)
            /\ resolve (b_assign op_div_assign) (lv test_D) (rv t_int)
               = IllFormedBody (member (b_assign op_div_assign) t_int)
  (* 240 *) /\ resolve (b_assign op_mul_assign) (lv test_C) (rv t_int)
               = IllFormedBody (member (b_assign op_mul_assign) t_int)
  (* 257 *) /\ resolve (b_assign op_add_assign) (lv test_X) (lv test_Y) = NoViable
  (* 258 *) /\ resolve (b_compare op_eq) (lv test_X) (lv test_Y) = NoViable
  (* 259 *) /\ initialize copy test_Y [lv test_X] = NoViable
  (* 260 *) /\ resolve (b_assign op_assign) (lv test_Y) (lv test_X) = NoViable
  (* 263 *) /\ initialize copy test_Y [rv test_X] = NoViable.
Proof. repeat split. Qed.

End TestProgram.

(* ================================================================== *)
(** ** Category selection *)

Module Category.
Import Cxx strong Overload Shapes Facts.

(** C9.  Category selection: a scalar representation type gets the
    composition body, a class type that is not final gets the inheritance
    body, no type ever matches both specialisations, and for a final class
    type no body exists: the alias is an incomplete type and declaring the
    alias struct over it is rejected, with no fall-back to composition. *)
Theorem category_selection_total_exclusive (T : ty) :
  (is_scalar T = true -> instantiate T = Body composition)
  /\ (is_class T = true -> is_final T = false -> instantiate T = Body inheritance)
  /\ instantiate T <> Ambiguous
  /\ (is_scalar T = true -> is_class T = true -> False)
  /\ (is_class T = true -> is_final T = true ->
      instantiate T = Incomplete
      /\ forall NAME, declare NAME T = IncompleteBase).
Proof.
  repeat split.
  - apply instantiate_scalar.
  - apply instantiate_class.
  - apply instantiate_not_ambiguous.
  - intros Hs Hc. rewrite (scalar_not_class T Hs) in Hc. discriminate.
  - now apply instantiate_final_class.
  - intros NAME. unfold declare. now rewrite instantiate_final_class.
Qed.

Lemma category_selection_witness :
  instantiate (t_arith Int) = Body composition
  /\ instantiate (t_ptr (t_arith Int)) = Body composition
  /\ instantiate open_class = Body inheritance
  /\ (instantiate final_class = Incomplete
      /\ forall NAME, declare NAME final_class = IncompleteBase).
Proof.
  split; [|split; [|split]].
  - apply (category_selection_total_exclusive (t_arith Int)). reflexivity.
  - apply (category_selection_total_exclusive (t_ptr (t_arith Int))). reflexivity.
  - apply (category_selection_total_exclusive open_class); reflexivity.
  - apply (category_selection_total_exclusive final_class); reflexivity.
Defined.

End Category.

(* ================================================================== *)
(** ** Comparison and logical operators of the composition body *)

Module Comparison.
Import Cxx strong Overload Init Operators Runtime Shapes Facts Selection.

Lemma builtin_eq_same (U : ty) :
  bare_scalar U -> builtin_ok (b_compare op_eq) U U = true.
Proof.
  destruct 1; simpl; auto.
  - unfold comparable_pointers. simpl. now rewrite pointer_conversion_refl.
  - now rewrite ty_eqb_refl.
Qed.

Section CrossAlias.
Variables (A B T : ty) (NameA NameB : marker) (x y : operand).
Hypothesis HA : alias_type A T NameA.
Hypothesis HB : alias_type B T NameB.
Hypothesis Hs : is_scalar T = true.
Hypothesis Hd : NameA <> NameB.
Hypothesis Hx : of_type x A.
Hypothesis Hy : of_type y B.

Lemma object_ics_const_member :
  exists oi, object_ics true x = Some oi
             /\ ((exists C0, oi = ics_base C0) \/ oi = ics_added_cv \/ oi = ics_identity).
Proof.
  unfold object_ics. simpl.
  destruct (remove_cv (o_ty x)); destruct (is_const (o_ty x)); simpl; eauto.
Qed.

Lemma cross_member_candidates (op : binop) :
  comparison_or_logical op ->
  exists oi, ((exists C0, oi = ics_base C0) \/ oi = ics_added_cv \/ oi = ics_identity) /\
    member_candidates op x y
    = [ {| cand_fn := member op B; cand_ics := [oi; const_ref_ics y];
           cand_template := true; cand_pack := false; cand_deleted := true |} ].
Proof.
  intros Hop. destruct object_ics_const_member as (oi & Hoi & Hc).
  exists oi. split; [exact Hc|].
  unfold member_candidates.
  rewrite (alias_of_operand A T composition NameA x HA (rep_scalar T Hs) Hx).
  assert (Hreq : is_different_alias B NameA = true).
  { rewrite (is_different_alias_alias B T composition NameB HB (rep_scalar T Hs)).
    apply negb_true_iff, String.eqb_neq. exact Hd. }
  destruct op as [o|o|o|o]; try contradiction; simpl;
    rewrite Hoi, (deduce_const_ref_operand B y Hy), Hreq; reflexivity.
Qed.

Lemma cross_builtin_candidates (op : binop) :
  comparison_or_logical op ->
  builtin_candidates op x y = []
  \/ exists f, builtin_candidates op x y
       = [ {| cand_fn := f;
              cand_ics := [ics_user ics_identity; ics_user ics_identity];
              cand_template := false; cand_pack := false;
              cand_deleted := false |} ].
Proof.
  intros Hop. unfold builtin_candidates.
  rewrite (offers_alias_operand A T NameA x HA Hs Hx).
  rewrite (offers_alias_operand B T NameB y HB Hs Hy).
  destruct op as [o|o|o|o]; try contradiction; simpl;
    match goal with
    | |- context [if ?c then _ else _] => destruct c
    end; eauto.
Qed.

(** Between two different aliases over one scalar, the best viable function
    for a comparison or logical operator is the deleted member template. *)
Lemma cross_alias_resolve (op : binop) :
  comparison_or_logical op -> resolve op x y = UsesDeleted (member op B).
Proof.
  intros Hop. unfold resolve, operator_candidates.
  rewrite (proj1 (nonmember_scalar_alias A T NameA x y op HA Hs Hx)), app_nil_r.
  destruct (cross_member_candidates op Hop) as (oi & Hc & ->).
  assert (Hi : implicit_assign_candidates op x y = []).
  { destruct op; try contradiction; reflexivity. }
  rewrite Hi. cbn [app].
  destruct (cross_builtin_candidates op Hop) as [-> | (f & ->)].
  - now rewrite select_single.
  - rewrite select_first_of_two; [reflexivity| |];
      unfold better, const_ref_ics;
      destruct Hc as [(C0 & ->) | [-> | ->]]; destruct (is_const (o_ty y)); reflexivity.
Qed.

End CrossAlias.

Section SameAlias.
Variables (A T : ty) (Name : marker) (x y : operand).
Hypothesis HA : alias_type A T Name.
Hypothesis Hs : is_scalar T = true.
Hypothesis Hx : of_type x A.
Hypothesis Hy : of_type y A.

Lemma same_alias_resolve_eq :
  resolve (b_compare op_eq) x y
  = Selected (builtin (b_compare op_eq) (remove_cv T) (remove_cv T)).
Proof.
  unfold resolve, operator_candidates.
  rewrite (proj1 (nonmember_scalar_alias A T Name x y (b_compare op_eq) HA Hs Hx)),
    app_nil_r.
  unfold member_candidates.
  rewrite (alias_of_operand A T composition Name x HA (rep_scalar T Hs) Hx).
  simpl. rewrite (deduce_const_ref_operand A y Hy).
  rewrite (is_different_alias_alias A T composition Name HA (rep_scalar T Hs)).
  rewrite String.eqb_refl. simpl.
  assert (Ho : match object_ics true x with
               | Some _ => @nil (candidate op_fn) | None => [] end = []).
  { now destruct (object_ics true x). }
  rewrite Ho. cbn [app implicit_assign_candidates]. unfold builtin_candidates.
  rewrite (offers_alias_operand A T Name x HA Hs Hx).
  rewrite (offers_alias_operand A T Name y HA Hs Hy).
  simpl is_assignment. cbv iota.
  rewrite (builtin_eq_same _ (remove_cv_scalar T Hs)). cbn [andb].
  now rewrite select_single.
Qed.

Lemma scalar_resolve_eq :
  resolve (b_compare op_eq) (rv T) (rv T)
  = Selected (builtin (b_compare op_eq) (remove_cv T) (remove_cv T)).
Proof.
  pose proof (remove_cv_scalar T Hs) as Hb.
  unfold resolve, operator_candidates.
  rewrite (proj1 (nonmember_scalar (rv T) (rv T) (b_compare op_eq) Hs)), app_nil_r.
  unfold member_candidates, alias_of. simpl o_ty.
  assert (Hm : match remove_cv T with
               | alias U N | STRONG_ALIAS N U =>
                   match instantiate U with
                   | Body b => Some (U, N, b)
                   | _ => None
                   end
               | _ => None
               end = None) by (destruct Hb; reflexivity).
  rewrite Hm. cbn [app implicit_assign_candidates].
  unfold builtin_candidates, offers. simpl o_ty. rewrite Hs.
  simpl is_assignment. cbv iota.
  rewrite (builtin_eq_same _ Hb). cbn [andb].
  now rewrite select_single.
Qed.

End SameAlias.

(** C1.  For two aliases [A] and [B] over one scalar [T] with different
    identities, every comparison and logical operator on an [A] and a [B]
    resolves to the member template of [A], which is declared deleted: the
    expression is rejected because the selected function is deleted, not for
    want of a candidate.  On two operands of the one alias, [==] resolves to
    the built-in operator of [T] and yields what
    [static_cast<T>(a) == static_cast<T>(a)] yields. *)
Theorem cross_alias_comparison_deleted
    (A B T : ty) (NameA NameB : marker) (x y : operand) :
  alias_type A T NameA -> alias_type B T NameB ->
  is_scalar T = true -> NameA <> NameB ->
  of_type x A -> of_type y B ->
  (forall op, comparison_or_logical op ->
     resolve op x y = UsesDeleted (member op B)
     /\ compiles (resolve op x y) = false
     /\ option_map mt_deleted (declared composition op) = Some true)
  /\ compiles (resolve (b_compare op_eq) x x) = true
  /\ forall (V : Type) (R : representation V) (a : alias_object),
       evaluate (b_compare op_eq) x x (operator_T a) (operator_T a)
       = Some (res_bool (T_eq (static_cast_T a) (static_cast_T a)))
       /\ evaluate (b_compare op_eq) x x (operator_T a) (operator_T a)
          = evaluate (b_compare op_eq) (rv T) (rv T)
              (static_cast_T a) (static_cast_T a).
Proof.
  intros HA HB Hs Hd Hx Hy.
  pose proof (same_alias_resolve_eq A T NameA x x HA Hs Hx Hx) as Hsame.
  split; [|split].
  - intros op Hop.
    pose proof (cross_alias_resolve A B T NameA NameB x y HA HB Hs Hd Hx Hy op Hop) as Hr.
    rewrite Hr. repeat split.
    destruct op; try contradiction; reflexivity.
  - now rewrite Hsame.
  - intros V R a. unfold evaluate.
    rewrite Hsame, (scalar_resolve_eq T Hs). split; reflexivity.
Qed.

Lemma cross_alias_comparison_witness :
  resolve (b_compare op_eq) (lv test_A) (lv test_B)
  = UsesDeleted (member (b_compare op_eq) test_B)
  /\ resolve (b_logical op_lor) (lv test_A) (lv test_B)
     = UsesDeleted (member (b_logical op_lor) test_B)
  /\ compiles (resolve (b_compare op_eq) (lv test_A) (lv test_A)) = true.
Proof.
  destruct (cross_alias_comparison_deleted test_A test_B (t_arith Int) "A" "B"
              (lv test_A) (lv test_B)) as (Hdel & Hok & _).
  - constructor.
  - constructor.
  - reflexivity.
  - discriminate.
  - reflexivity.
  - reflexivity.
  - split; [|split].
    + apply (Hdel (b_compare op_eq)). exact I.
    + apply (Hdel (b_logical op_lor)). exact I.
    + exact Hok.
Defined.

End Comparison.

(* ================================================================== *)
(** ** Construction of alias objects *)

Module Construction.
Import Cxx strong Overload Init Operators Runtime Shapes Facts Selection.

Lemma standard_conversion_refl (U : ty) :
  bare_scalar U -> standard_conversion U U = Some false.
Proof.
  destruct 1; simpl; auto.
  - destruct a; reflexivity.
  - now rewrite String.eqb_refl.
  - now rewrite pointer_conversion_refl.
  - now rewrite ty_eqb_refl.
Qed.

(** Two aliases with different identities over representation types are
    unrelated classes. *)
Lemma unrelated_aliases (A B TA TB : ty) (bA bB : body) (NameA NameB : marker) :
  alias_type A TA NameA -> alias_type B TB NameB ->
  rep_type TA bA -> rep_type TB bB -> NameA <> NameB ->
  is_base_of A B = false.
Proof.
  intros HA HB HTA HTB Hd. unfold is_base_of.
  rewrite (alias_type_remove_cv A TA NameA HA), (alias_type_remove_cv B TB NameB HB).
  rewrite (alias_type_class A TA NameA HA), (alias_type_class B TB NameB HB).
  destruct (rep_not_strong TB bB HTB) as (_ & _ & Ha & Hm).
  assert (HTn : ty_eqb A TB = false).
  { apply ty_eqb_neq. intros ->. destruct HA; [eapply Ha|eapply Hm]; reflexivity. }
  destruct HA, HB; rewrite ?bases_macro with (b := bB) by assumption;
    rewrite (bases_alias _ bB _ HTB); destruct bB; simpl;
    rewrite ?HTn; repeat (rewrite ty_eqb_neq by congruence); reflexivity.
Qed.

Section FromOtherAlias.
Variables (A B TA TB : ty) (bA bB : body) (NameA NameB : marker) (x : operand).
Hypothesis HA : alias_type A TA NameA.
Hypothesis HB : alias_type B TB NameB.
Hypothesis HTA : rep_type TA bA.
Hypothesis HTB : rep_type TB bB.
Hypothesis Hd : NameA <> NameB.
Hypothesis Hx : of_type x A.

Lemma forwarded_alias : rm_cvref_t (deduce_forwarding x) = A.
Proof.
  rewrite rm_cvref_forwarding; [exact Hx|].
  exact (of_type_not_reference x A TA NameA HA Hx).
Qed.

Lemma single_rejects_other_alias :
  ctor_requires bB ctor_single NameB [deduce_forwarding x] = false.
Proof.
  destruct bB; simpl.
  - now rewrite (is_alias_forwarding A TA bA NameA x HA HTA Hx).
  - rewrite forwarded_alias.
    rewrite (is_alias_alias A TA bA NameA HA HTA).
    rewrite (is_same_alias_alias A TA bA NameA HA HTA).
    simpl. apply String.eqb_neq. congruence.
Qed.

Lemma pack_accepts_alias :
  ctor_requires bB ctor_pack NameB [deduce_forwarding x] = true.
Proof.
  destruct bB; simpl; [|reflexivity].
  now rewrite (is_alias_forwarding A TA bA NameA x HA HTA Hx).
Qed.

Lemma no_implicit_from_other_alias : implicit_candidates B [x] = [].
Proof.
  unfold implicit_candidates.
  assert (E : is_base_of (remove_cv B) (o_ty x) = false).
  { rewrite (alias_type_remove_cv B TB NameB HB).
    rewrite <- (unrelated_aliases B A TB TA bB bA NameB NameA HB HA HTB HTA);
      [|congruence].
    unfold is_base_of. rewrite Hx, <- (is_class_remove_cv (o_ty x)), Hx.
    now rewrite (alias_type_remove_cv A TA NameA HA). }
  now rewrite E.
Qed.

Lemma not_excluded_other_alias : excluded_inherited B [x] = false.
Proof.
  unfold excluded_inherited.
  rewrite (alias_type_remove_cv B TB NameB HB).
  destruct HB as [T N|T N]; [reflexivity|].
  rewrite Hx.
  now rewrite (unrelated_aliases (alias T N) A T TA bB bA N NameA
                 (at_template T N) HA HTB HTA) by congruence.
Qed.

(** Copy-initialisation of a [B] from an [A]: no candidate at all. *)
Lemma copy_from_other_alias : initialize copy B [x] = NoViable.
Proof.
  unfold initialize, constructors.
  rewrite (alias_of_alias B TB bB NameB HB HTB).
  unfold template_candidate. cbn [ctor_explicit negb andb length map ctor_arity Nat.eqb].
  rewrite single_rejects_other_alias, no_implicit_from_other_alias.
  rewrite !andb_false_r. reflexivity.
Qed.

(** Direct-initialisation of a [B] from an [A]: overload resolution takes
    the explicit pack constructor. *)
Lemma direct_from_other_alias_selects :
  select (constructors direct B [x])
  = Selected (by_template ctor_pack [deduce_forwarding x]).
Proof.
  unfold constructors.
  rewrite (alias_of_alias B TB bB NameB HB HTB).
  unfold template_candidate. cbn [length map ctor_arity Nat.eqb andb].
  rewrite pack_accepts_alias, single_rejects_other_alias,
    no_implicit_from_other_alias, not_excluded_other_alias.
  cbn [negb andb app]. now rewrite select_single.
Qed.

Lemma direct_from_other_alias :
  member_init_ok bB TB [x] = true ->
  initialize direct B [x] = Selected (by_template ctor_pack [deduce_forwarding x]).
Proof.
  intros Hm. unfold initialize.
  rewrite direct_from_other_alias_selects, (alias_of_alias B TB bB NameB HB HTB), Hm.
  destruct bB; reflexivity.
Qed.

End FromOtherAlias.

(** The member initialiser accepts an alias over the same representation
    type. *)
Lemma member_init_same_rep (A T : ty) (b : body) (Name : marker) (x : operand) :
  alias_type A T Name -> rep_type T b -> of_type x A ->
  member_init_ok b T [x] = true.
Proof.
  intros HA HT Hx. destruct HT as [T Hs|n d Hf]; simpl.
  - rewrite (offers_alias_operand A T Name x HA Hs Hx).
    now rewrite (standard_conversion_refl _ (remove_cv_scalar T Hs)).
  - apply orb_true_iff. left. unfold is_base_of.
    rewrite <- (is_class_remove_cv (o_ty x)), Hx.
    rewrite (alias_type_class A _ Name HA). cbn [is_class andb remove_cv].
    inversion HA; subst;
      rewrite ?bases_macro with (b := inheritance) by (now constructor);
      rewrite (bases_alias _ inheritance _ (rep_class n d Hf)); cbn [existsb];
      rewrite ty_eqb_refl, ?orb_true_r; reflexivity.
Qed.

Lemma rep_type_body (T : ty) (b b' : body) : rep_type T b -> rep_type T b' -> b = b'.
Proof.
  destruct 1 as [T Hs|n d Hf]; inversion 1; subst; try reflexivity; discriminate.
Qed.

(** C3 (as amended).  For two aliases with different identities, over the
    same or different representation types, an [A] is never implicitly
    converted into a [B]: copy-initialisation finds no constructor.
    Direct-initialisation [B b(a)] is accepted by overload resolution, which
    selects the explicit pack constructor, and compiles whenever the
    representation of [B] can be initialised from the [A], in particular when
    both are over the same type. *)
Theorem construction_from_other_alias
    (A B TA TB : ty) (bA bB : body) (NameA NameB : marker) (x : operand) :
  alias_type A TA NameA -> alias_type B TB NameB ->
  rep_type TA bA -> rep_type TB bB -> NameA <> NameB -> of_type x A ->
  initialize copy B [x] = NoViable
  /\ implicitly_convertible x B = false
  /\ select (constructors direct B [x])
     = Selected (by_template ctor_pack [deduce_forwarding x])
  /\ ctor_explicit ctor_pack = true
  /\ (member_init_ok bB TB [x] = true ->
      initialize direct B [x] = Selected (by_template ctor_pack [deduce_forwarding x]))
  /\ (TA = TB -> compiles (initialize direct B [x]) = true).
Proof.
  intros HA HB HTA HTB Hd Hx.
  pose proof (copy_from_other_alias A B TA TB bA bB NameA NameB x HA HB HTA HTB Hd Hx) as Hc.
  pose proof (direct_from_other_alias A B TA TB bA bB NameA NameB x HA HB HTA HTB Hd Hx) as Hdir.
  repeat split.
  - exact Hc.
  - unfold implicitly_convertible. now rewrite Hc.
  - exact (direct_from_other_alias_selects A B TA TB bA bB NameA NameB x HA HB HTA HTB Hd Hx).
  - exact Hdir.
  - intros E. subst TB.
    rewrite Hdir; [reflexivity|].
    rewrite (rep_type_body TA bB bA HTB HTA).
    exact (member_init_same_rep A TA bA NameA x HA HTA Hx).
Qed.

Lemma construction_from_other_alias_witness :
  initialize copy test_B [lv test_A] = NoViable
  /\ compiles (initialize direct test_B [lv test_A]) = true.
Proof.
  destruct (construction_from_other_alias test_A test_B (t_arith Int) (t_arith Int)
              composition composition "A" "B" (lv test_A))
    as (Hc & _ & _ & _ & _ & Hd).
  - constructor.
  - constructor.
  - constructor. reflexivity.
  - constructor. reflexivity.
  - discriminate.
  - reflexivity.
  - split; [exact Hc | apply Hd; reflexivity].
Defined.

(** C3 as stated fails: [A a; B b(a);] (line 208 of the header's own test
    program, marked as compiling) is accepted, by the explicit pack
    constructor of [B]. *)
Lemma direct_init_from_other_alias_accepted :
  alias_type test_A (t_arith Int) "A" /\ alias_type test_B (t_arith Int) "B"
  /\ "A" <> "B"
  /\ initialize direct test_B [lv test_A]
     = Selected (by_template ctor_pack [t_lref test_A])
  /\ compiles (initialize direct test_B [lv test_A]) = true.
Proof.
  split; [constructor|]. split; [constructor|].
  split; [discriminate|]. split; reflexivity.
Qed.

(** *** Construction from a plain scalar value *)

Section FromScalar.
Variables (A T : ty) (Name : marker) (y : operand).
Hypothesis HA : alias_type A T Name.
Hypothesis Hs : is_scalar T = true.
Hypothesis Hy : is_scalar (o_ty y) = true.

Lemma scalar_operand_not_class : is_class (o_ty y) = false.
Proof. exact (scalar_not_class _ Hy). Qed.

Lemma scalar_forwarding_not_alias : is_alias (deduce_forwarding y) = false.
Proof.
  apply is_alias_not_class. rewrite rm_cvref_forwarding.
  - rewrite is_class_remove_cv. exact scalar_operand_not_class.
  - apply not_reference. right. now rewrite is_scalar_remove_cv.
Qed.

Lemma scalar_not_derived (Base : ty) : is_base_of Base (o_ty y) = false.
Proof.
  unfold is_base_of. rewrite scalar_operand_not_class.
  now rewrite andb_false_r.
Qed.

Lemma scalar_not_excluded : excluded_inherited A [y] = false.
Proof.
  unfold excluded_inherited. rewrite (alias_type_remove_cv A T Name HA).
  destruct HA; [reflexivity|].
  unfold is_base_of at 1. rewrite is_class_remove_cv, scalar_operand_not_class.
  now rewrite andb_false_r.
Qed.

(** Whatever the kind of initialisation, the one candidate is the
    single-argument constructor, which is not explicit. *)
Lemma constructors_from_scalar (k : init_kind) :
  constructors k A [y]
  = [ {| cand_fn := by_template ctor_single [deduce_forwarding y];
         cand_ics := [ics_identity];
         cand_template := true; cand_pack := false; cand_deleted := false |} ].
Proof.
  unfold constructors.
  rewrite (alias_of_alias A T composition Name HA (rep_scalar T Hs)).
  unfold template_candidate, implicit_candidates.
  rewrite (scalar_not_derived (remove_cv A)), scalar_not_excluded.
  cbn [length map ctor_arity Nat.eqb ctor_requires forallb ctor_explicit negb andb].
  rewrite scalar_forwarding_not_alias.
  destruct k; reflexivity.
Qed.

Lemma initialize_from_scalar (k : init_kind) :
  standard_conversion (remove_cv (o_ty y)) (remove_cv T) = Some false ->
  initialize k A [y] = Selected (by_template ctor_single [deduce_forwarding y]).
Proof.
  intros Hc. unfold initialize.
  rewrite constructors_from_scalar, select_single.
  rewrite (alias_of_alias A T composition Name HA (rep_scalar T Hs)).
  cbn [chosen cand_deleted cand_fn ctor_static_assert andb member_init_ok].
  now rewrite (offers_scalar_operand y Hy), Hc.
Qed.

End FromScalar.

(** C4 (as amended).  For a scalar alias [A] over [T]: the constructor
    that accepts alias arguments is the explicit one, so an operand of
    another alias type is never implicitly converted into an [A]; a plain
    scalar value that converts to [T] without narrowing is implicitly
    converted, by the single-argument constructor, which is not explicit. *)
Theorem implicit_construction_from_plain_values_only
    (A T : ty) (Name : marker) (y : operand) :
  alias_type A T Name -> is_scalar T = true ->
  is_scalar (o_ty y) = true ->
  standard_conversion (remove_cv (o_ty y)) (remove_cv T) = Some false ->
  initialize copy A [y] = Selected (by_template ctor_single [deduce_forwarding y])
  /\ implicitly_convertible y A = true
  /\ ctor_explicit ctor_single = false
  /\ ctor_explicit ctor_pack = true
  /\ (forall Args, ctor_requires composition ctor_pack Name Args = forallb is_alias Args)
  /\ (forall B TB bB NameB x,
        alias_type B TB NameB -> rep_type TB bB -> NameB <> Name -> of_type x B ->
        implicitly_convertible x A = false).
Proof.
  intros HA Hs Hy Hc.
  pose proof (initialize_from_scalar A T Name y HA Hs Hy copy Hc) as Hi.
  repeat split.
  - exact Hi.
  - unfold implicitly_convertible. now rewrite Hi.
  - intros B TB bB NameB x HB HTB Hd Hx. unfold implicitly_convertible.
    now rewrite (copy_from_other_alias B A TB T bB composition NameB Name x
                   HB HA HTB (rep_scalar T Hs) Hd Hx).
Qed.

Lemma implicit_construction_witness :
  initialize copy test_A [rv (t_arith Int)]
  = Selected (by_template ctor_single [t_arith Int])
  /\ implicitly_convertible (lv test_B) test_A = false.
Proof.
  destruct (implicit_construction_from_plain_values_only
              test_A (t_arith Int) "A" (rv (t_arith Int)))
    as (Hi & _ & _ & _ & _ & Hn).
  - constructor.
  - reflexivity.
  - reflexivity.
  - reflexivity.
  - split; [exact Hi|].
    apply (Hn test_B (t_arith Int) composition "B" (lv test_B)).
    + constructor.
    + constructor. reflexivity.
    + discriminate.
    + reflexivity.
Defined.

(** C4 as stated fails: [A a = 5;] compiles, and so does [A a3 = a + b;]
    (line 201 of the header's test program): an [int] is implicitly
    converted into an [A]. *)
Lemma copy_init_from_int_accepted :
  compiles (initialize copy (alias (t_arith Int) "A") [rv (t_arith Int)]) = true
  /\ compiles (initialize copy test_A [rv (t_arith Int)]) = true
  /\ implicitly_convertible (rv (t_arith Int)) test_A = true.
Proof. repeat split. Qed.

Lemma scalar_nothrow_move (T : ty) :
  is_scalar T = true -> is_nothrow_move_constructible T = true.
Proof. induction T; simpl; intros; try discriminate; auto. Qed.

Lemma scalar_nothrow_copy (T : ty) :
  is_scalar T = true -> is_nothrow_copy_constructible T = true.
Proof. induction T; simpl; intros; try discriminate; auto. Qed.

(** The [noexcept] expression on a deduced forwarding reference: an rvalue
    argument deduces a type that is no reference at all, so neither branch
    of the expression holds. *)
Lemma noexcept_rvalue_argument (T : ty) (y : operand) :
  o_cat y = rvalue ->
  is_lvalue_reference (o_ty y) = false -> is_rvalue_reference (o_ty y) = false ->
  ctor_noexcept T [deduce_forwarding y] = false.
Proof.
  intros Hc Hl Hr. unfold ctor_noexcept, deduce_forwarding. rewrite Hc.
  cbn [forallb]. now rewrite Hl, Hr.
Qed.

Lemma scalar_not_a_reference (U : ty) :
  is_scalar U = true ->
  is_lvalue_reference U = false /\ is_rvalue_reference U = false.
Proof. destruct U; simpl; intros; try discriminate; auto. Qed.

Lemma noexcept_lvalue_argument (T : ty) (y : operand) :
  o_cat y = lvalue ->
  ctor_noexcept T [deduce_forwarding y] = is_nothrow_copy_constructible T.
Proof.
  intros Hc. unfold ctor_noexcept, deduce_forwarding. rewrite Hc. simpl.
  destruct (is_nothrow_copy_constructible T); reflexivity.
Qed.

(** C8, the half the code keeps and the half it breaks.  Constructing a
    scalar alias from a plain scalar value calls the single-argument
    constructor; from an lvalue its exception specification is that of
    [T]'s copy construction, but from an rvalue it is [noexcept(false)]
    although [T] is nothrow-move-constructible. *)
Theorem noexcept_of_construction_from_value
    (A T : ty) (Name : marker) (y : operand) :
  alias_type A T Name -> is_scalar T = true ->
  is_scalar (o_ty y) = true ->
  standard_conversion (remove_cv (o_ty y)) (remove_cv T) = Some false ->
  (o_cat y = lvalue ->
   initialize_noexcept direct A [y] = Some (is_nothrow_copy_constructible T))
  /\ (o_cat y = rvalue ->
      initialize_noexcept direct A [y] = Some false
      /\ is_nothrow_move_constructible T = true).
Proof.
  intros HA Hs Hy Hc.
  pose proof (initialize_from_scalar A T Name y HA Hs Hy direct Hc) as Hi.
  assert (Hn : initialize_noexcept direct A [y]
               = Some (ctor_noexcept T [deduce_forwarding y])).
  { unfold initialize_noexcept.
    now rewrite Hi, (alias_of_alias A T composition Name HA (rep_scalar T Hs)). }
  split; intros Hcat.
  - now rewrite Hn, noexcept_lvalue_argument.
  - split; [|now apply scalar_nothrow_move].
    destruct (scalar_not_a_reference _ Hy) as (Hl & Hr).
    now rewrite Hn, noexcept_rvalue_argument.
Qed.

Lemma noexcept_of_construction_witness :
  initialize_noexcept direct test_A [lv (t_arith Int)] = Some true
  /\ initialize_noexcept direct test_A [rv (t_arith Int)] = Some false
  /\ is_nothrow_move_constructible (t_arith Int) = true.
Proof.
  split.
  - apply (noexcept_of_construction_from_value test_A (t_arith Int) "A"
             (lv (t_arith Int))); try reflexivity. constructor.
  - apply (noexcept_of_construction_from_value test_A (t_arith Int) "A"
             (rv (t_arith Int))); try reflexivity. constructor.
Defined.

(** *** Default construction *)

Lemma constructors_default (A T : ty) (b : body) (Name : marker) :
  alias_type A T Name -> rep_type T b ->
  constructors direct A []
  = [ {| cand_fn := by_template ctor_pack [];
         cand_ics := [];
         cand_template := true; cand_pack := true; cand_deleted := false |} ].
Proof.
  intros HA HT. unfold constructors.
  rewrite (alias_of_alias A T b Name HA HT).
  unfold template_candidate, excluded_inherited, is_macro_struct.
  destruct (remove_cv A); destruct b; reflexivity.
Qed.

(** C10.  Default construction [A a;] of a scalar alias goes through the
    explicit pack constructor with the empty pack, whose member initialiser
    [value{ }] value-initialises the owned [T]: the value read back is
    [T{}], zero for an arithmetic [T] and null for a pointer [T]. *)
Theorem default_construction_value_initializes
    (A T : ty) (Name : marker) :
  alias_type A T Name -> is_scalar T = true ->
  initialize direct A [] = Selected (by_template ctor_pack [])
  /\ ctor_requires composition ctor_pack Name [] = true
  /\ ctor_arity ctor_single 0 = false
  /\ (forall (V : Type) (R : representation V),
        exists a : alias_object,
          initialized direct A [] [] = Some a /\ operator_T a = T_init)
  /\ @T_init Z unsigned_int = 0%Z
  /\ PrimFloat.eqb (@T_init float double) 0%float = true
  /\ @T_init pointer object_pointer = null.
Proof.
  intros HA Hs.
  assert (Hi : initialize direct A [] = Selected (by_template ctor_pack [])).
  { unfold initialize.
    rewrite (constructors_default A T composition Name HA (rep_scalar T Hs)).
    rewrite select_single.
    now rewrite (alias_of_alias A T composition Name HA (rep_scalar T Hs)). }
  repeat split; auto.
  intros V R. exists construct_default. split; [|reflexivity].
  unfold initialized. now rewrite Hi.
Qed.

Lemma default_construction_witness :
  initialize direct test_A [] = Selected (by_template ctor_pack [])
  /\ initialize direct test_D [] = Selected (by_template ctor_pack [])
  /\ exists a : @alias_object pointer,
       initialized direct test_D [] [] = Some a /\ operator_T a = null.
Proof.
  split; [|split].
  - apply (default_construction_value_initializes test_A (t_arith Int) "A").
    + constructor.
    + reflexivity.
  - apply (default_construction_value_initializes test_D (t_ptr (t_arith Int)) "D").
    + constructor.
    + reflexivity.
  - destruct (default_construction_value_initializes test_D (t_ptr (t_arith Int)) "D")
      as (_ & _ & _ & H & _).
    + constructor.
    + reflexivity.
    + exact (H pointer object_pointer).
Defined.

End Construction.

(* ================================================================== *)
(** ** Assignment and compound assignment *)

Module Assignment.
Import Cxx strong Overload Init Operators Runtime Shapes Facts Selection Construction.

Lemma declared_assignment (b : body) (o : assign_op) :
  declared b (b_assign o)
  = Some {| mt_requires := not_alias_or_same_alias;
            mt_deleted := false; mt_result := r_alias_ref |}.
Proof. destruct b; reflexivity. Qed.

(** An operand of alias type used on the left of an assignment offers
    nothing to a built-in assignment. *)
Lemma no_builtin_assignment (A T : ty) (b : body) (Name : marker)
    (x w : operand) (o : assign_op) :
  alias_type A T Name -> rep_type T b -> of_type x A ->
  builtin_candidates (b_assign o) x w = [].
Proof.
  intros HA HT Hx. unfold builtin_candidates, offers.
  rewrite (operand_not_scalar A T Name x HA Hx).
  rewrite (alias_of_operand A T b Name x HA HT Hx).
  destruct b; [|reflexivity].
  destruct (if is_scalar (o_ty w) then _ else _) as [[V uy]|]; reflexivity.
Qed.

(** The member template is a candidate exactly when its clause holds. *)
Lemma member_candidates_assignment (A T : ty) (b : body) (Name : marker)
    (x w : operand) (o : assign_op) :
  alias_type A T Name -> rep_type T b -> of_type x A ->
  is_const (o_ty x) = false -> hidden_in_macro A o = false ->
  member_candidates (b_assign o) x w
  = if not_alias_or_same_alias Name (deduce_const_ref w)
    then [ {| cand_fn := member (b_assign o) (deduce_const_ref w);
              cand_ics := [ if is_macro_struct A then ics_base (alias T Name)
                            else ics_identity;
                            const_ref_ics w ];
              cand_template := true; cand_pack := false; cand_deleted := false |} ]
    else [].
Proof.
  intros HA HT Hx Hc Hh. unfold member_candidates.
  rewrite (alias_of_operand A T b Name x HA HT Hx), declared_assignment.
  rewrite (object_ics_operand A T Name x HA Hx).
  cbn [is_assignment negb andb mt_requires mt_deleted hidden].
  assert (Hhid : hidden_in_macro (o_ty x) o = hidden_in_macro A o).
  { unfold hidden_in_macro. now rewrite (macro_struct_operand A T Name x HA Hx). }
  rewrite Hc, Hhid, Hh.
  cbn [negb andb]. destruct (is_macro_struct A); reflexivity.
Qed.


Section DifferentAlias.
Variables (A B T : ty) (b : body) (NameA NameB : marker) (x y : operand).
Hypothesis HA : alias_type A T NameA.
Hypothesis HB : alias_type B T NameB.
Hypothesis HT : rep_type T b.
Hypothesis Hd : NameA <> NameB.
Hypothesis Hx : of_type x A.
Hypothesis Hy : of_type y B.

Lemma clause_rejects_other_alias : not_alias_or_same_alias NameA B = false.
Proof.
  unfold not_alias_or_same_alias.
  rewrite (is_alias_alias B T b NameB HB HT).
  rewrite (is_same_alias_alias B T b NameB HB HT).
  simpl. apply String.eqb_neq. exact Hd.
Qed.






End DifferentAlias.

Section SameAlias.
Variables (A T : ty) (b : body) (Name : marker) (x z : operand).
Hypothesis HA : alias_type A T Name.
Hypothesis HT : rep_type T b.
Hypothesis Hx : of_type x A.
Hypothesis Hxc : is_const (o_ty x) = false.
Hypothesis Hz : of_type z A.





End SameAlias.








End Assignment.

(* ================================================================== *)
(** ** Round trip through an alias *)

Module RoundTrip.
Import Cxx strong Overload Init Operators Runtime Shapes Facts Selection Construction.

(** *** An alias with the inheritance body built from an object of [T] *)

Section FromClassValue.
Variables (C : ty) (n : string) (d : class_decl) (Name : marker) (w : operand).
Hypothesis HC : alias_type C (t_class n d) Name.
Hypothesis Hf : cls_final d = false.
Hypothesis Hw : of_type w (t_class n d).

Lemma class_value_forwarded : rm_cvref_t (deduce_forwarding w) = t_class n d.
Proof.
  rewrite rm_cvref_forwarding; [exact Hw|].
  apply not_reference. left. now rewrite Hw.
Qed.

Lemma user_class_has_no_base (D : ty) :
  (forall n0 d0, remove_cv D <> t_class n0 d0) ->
  is_base_of D (o_ty w) = false.
Proof.
  intros HD. rewrite (is_base_of_operand D w _ Hw). unfold is_base_of.
  cbn [remove_cv bases existsb]. rewrite orb_false_r.
  rewrite (ty_eqb_neq (remove_cv D) (t_class n d)) by apply HD.
  apply andb_false_r.
Qed.

Lemma class_value_unrelated :
  is_base_of (remove_cv C) (o_ty w) = false
  /\ excluded_inherited C [w] = false
  /\ is_base_of (t_class n d) (o_ty w) = true.
Proof.
  split; [|split].
  - apply user_class_has_no_base. intros n0 d0.
    rewrite remove_cv_idem, (alias_type_remove_cv C _ Name HC).
    destruct HC; discriminate.
  - unfold excluded_inherited.
    destruct (remove_cv C); try reflexivity.
    rewrite <- (is_base_of_operand _ w _ eq_refl).
    rewrite user_class_has_no_base; [reflexivity|].
    intros n0 d0. discriminate.
  - rewrite (is_base_of_operand _ w _ Hw). unfold is_base_of.
    cbn [is_class remove_cv andb]. now rewrite ty_eqb_refl.
Qed.

(** Both constructor templates accept the object; the single-argument one
    is the more specialised. *)
Lemma initialize_from_class_value :
  initialize direct C [w] = Selected (by_template ctor_single [deduce_forwarding w]).
Proof.
  pose proof (rep_class n d Hf) as HT.
  destruct class_value_unrelated as (Hr & He & Hb).
  unfold initialize, constructors.
  rewrite (alias_of_alias C _ inheritance Name HC HT).
  unfold template_candidate, implicit_candidates. cbv zeta.
  rewrite Hr, He.
  cbn [length map ctor_arity Nat.eqb ctor_requires andb negb app].
  rewrite class_value_forwarded.
  rewrite (is_alias_user_class n d). cbn [negb orb andb app].
  rewrite select_second_of_two; [|reflexivity|reflexivity].
  cbn [chosen cand_deleted cand_fn ctor_static_assert member_init_ok andb].
  now rewrite Hb.
Qed.

End FromClassValue.

Lemma pointer_eqb_refl (p : pointer) : pointer_eqb p p = true.
Proof. destruct p; simpl; [reflexivity|]. now rewrite N.eqb_refl, Z.eqb_refl. Qed.

(** C5 (as amended).  Constructing a scalar alias from a plain value that
    converts to [T] without narrowing calls the single-argument constructor
    and stores the converted value [v]; reading it back through
    [operator T()] returns that very [v], which compares equal to [v] under
    [T]'s own equality whenever [T]'s equality holds of [v] and itself:
    for every integer and pointer value, and for every [double] that is not
    a NaN.  An alias with the inheritance body constructed from an object
    [v] of the class [T] calls the single-argument constructor too, which
    copies (or moves) [v] into the [T] sub-object: used as a [T], the alias
    is that copy, equal to [v] whenever [T]'s copy is, as it is for a class
    that copies member by member and whose equality holds of [v] and
    itself. *)
Theorem round_trip_returns_stored_value
    (A T : ty) (Name : marker) (y : operand)
    (C : ty) (n : string) (d : class_decl) (NameC : marker) (w : operand)
    (V : Type) (R : representation V) (v : V) :
  alias_type A T Name -> is_scalar T = true ->
  is_scalar (o_ty y) = true ->
  standard_conversion (remove_cv (o_ty y)) (remove_cv T) = Some false ->
  alias_type C (t_class n d) NameC -> cls_final d = false ->
  of_type w (t_class n d) ->
  initialize direct A [y] = Selected (by_template ctor_single [deduce_forwarding y])
  /\ (exists a, initialized direct A [y] [v] = Some a
                /\ operator_T a = v
                /\ (T_eq v v = true -> T_eq (operator_T a) v = true))
  /\ initialize direct C [w] = Selected (by_template ctor_single [deduce_forwarding w])
  /\ (exists c, initialized_derived direct C [w] [v] = Some c
                /\ as_T c = T_copy v
                /\ (T_eq (T_copy v) v = true -> T_eq (as_T c) v = true))
  /\ (forall z : Z, @T_eq Z signed_int z z = true /\ @T_eq Z unsigned_int z z = true)
  /\ (forall p : pointer, T_eq p p = true)
  /\ (forall f : float, T_eq f f = negb (PrimFloat.is_nan f))
  /\ (forall c : coordinates, T_eq (T_copy c) c = T_eq c c).
Proof.
  intros HA Hs Hy Hc HC Hf Hw.
  pose proof (initialize_from_scalar A T Name y HA Hs Hy direct Hc) as Hi.
  pose proof (initialize_from_class_value C n d NameC w HC Hf Hw) as Hj.
  split; [exact Hi|]. split.
  { exists (construct v). unfold initialized. rewrite Hi.
    split; [reflexivity|]. split; [reflexivity|]. now intros E. }
  split; [exact Hj|]. split.
  { exists (construct_derived (T_copy v)). unfold initialized_derived. rewrite Hj.
    split; [reflexivity|]. split; [reflexivity|]. now intros E. }
  split; [intros z; split; apply Z.eqb_refl|].
  split; [exact pointer_eqb_refl|].
  split.
  - intros f. unfold PrimFloat.is_nan. cbn [T_eq double].
    now rewrite negb_involutive.
  - intros c. destruct c; reflexivity.
Qed.

Lemma round_trip_witness :
  (exists a, @initialized Z signed_int direct test_A [rv (t_arith SChar)] [42%Z]
             = Some a
             /\ T_eq (operator_T a) 42%Z = true)
  /\ (exists c, @initialized_derived coordinates vector3 direct test_X
                  [lv open_class]
                  [{| coord_x := 1%float; coord_y := 2%float; coord_z := 3%float |}]
                = Some c
                /\ T_eq (as_T c)
                     {| coord_x := 1%float; coord_y := 2%float; coord_z := 3%float |}
                   = true).
Proof.
  destruct (round_trip_returns_stored_value test_A (t_arith Int) "A"
              (rv (t_arith SChar)) test_X "Vector3d" open_decl "X" (lv open_class)
              Z signed_int 42%Z)
    as (_ & (a & Ha & _ & He) & _).
  - constructor.
  - reflexivity.
  - reflexivity.
  - reflexivity.
  - constructor.
  - reflexivity.
  - reflexivity.
  - destruct (round_trip_returns_stored_value test_A (t_arith Int) "A"
                (rv (t_arith SChar)) test_X "Vector3d" open_decl "X" (lv open_class)
                coordinates vector3
                {| coord_x := 1%float; coord_y := 2%float; coord_z := 3%float |})
      as (_ & _ & _ & (c & Hc & _ & He') & _).
    + constructor.
    + reflexivity.
    + reflexivity.
    + reflexivity.
    + constructor.
    + reflexivity.
    + reflexivity.
    + split.
      * exists a. split; [exact Ha|]. apply He. reflexivity.
      * exists c. split; [exact Hc|]. apply He'. reflexivity.
Defined.

(** C5 as stated fails for a [double] that is not a number: [Meters a{v}]
    compiles and stores [v], and the value read back is not equal to [v]
    under [double]'s own [==]. *)
Lemma round_trip_nan_not_equal :
  @initialized float double direct Meters [rv (t_arith Double)] [PrimFloat.nan]
  = Some (construct PrimFloat.nan)
  /\ T_eq (operator_T (@construct float PrimFloat.nan)) PrimFloat.nan = false.
Proof.
  split; reflexivity.
Qed.

End RoundTrip.

(* ================================================================== *)
(** ** The scalar scenario: Meters and Seconds *)

Module Scenario.
Import Cxx strong Overload Init Operators Runtime Shapes Facts Selection Construction.

(** An arithmetic operator on two operands of scalar aliases, of the same
    identity or not: neither body declares one, so the built-in operator is
    the only candidate, each operand reaching it through [operator T()]. *)
Lemma arithmetic_decays
    (A B TA TB : ty) (NameA NameB : marker) (x y : operand) (o : arith_op) :
  alias_type A TA NameA -> alias_type B TB NameB ->
  is_scalar TA = true -> is_scalar TB = true ->
  of_type x A -> of_type y B ->
  builtin_ok (b_arith o) (remove_cv TA) (remove_cv TB) = true ->
  resolve (b_arith o) x y
  = Selected (builtin (b_arith o) (remove_cv TA) (remove_cv TB)).
Proof.
  intros HA HB HsA HsB Hx Hy Hok.
  unfold resolve, operator_candidates.
  rewrite (proj1 (nonmember_scalar_alias A TA NameA x y (b_arith o) HA HsA Hx)),
    app_nil_r.
  unfold member_candidates.
  rewrite (alias_of_operand A TA composition NameA x HA (rep_scalar TA HsA) Hx).
  cbn [declared app implicit_assign_candidates].
  unfold builtin_candidates.
  rewrite (offers_alias_operand A TA NameA x HA HsA Hx).
  rewrite (offers_alias_operand B TB NameB y HB HsB Hy).
  cbn [is_assignment]. rewrite Hok. cbn [andb].
  now rewrite select_single.
Qed.

(** [double == Meters]: the deleted member templates do not take part (the
    left operand is no class, and [double] is no alias); the built-in
    operator is chosen. *)
Lemma scalar_compares_with_alias
    (A T : ty) (Name : marker) (x y : operand) :
  alias_type A T Name -> is_scalar T = true ->
  is_scalar (o_ty x) = true -> of_type y A ->
  builtin_ok (b_compare op_eq) (remove_cv (o_ty x)) (remove_cv T) = true ->
  resolve (b_compare op_eq) x y
  = Selected (builtin (b_compare op_eq) (remove_cv (o_ty x)) (remove_cv T)).
Proof.
  intros HA Hs Hx Hy Hok.
  unfold resolve, operator_candidates.
  rewrite (proj1 (nonmember_scalar x y (b_compare op_eq) Hx)), app_nil_r.
  unfold member_candidates.
  assert (Hn : alias_of (o_ty x) = None).
  { unfold alias_of.
    destruct (remove_cv_scalar (o_ty x) Hx); reflexivity. }
  rewrite Hn. cbn [app implicit_assign_candidates].
  unfold builtin_candidates.
  rewrite (offers_scalar_operand x Hx).
  rewrite (offers_alias_operand A T Name y HA Hs Hy).
  cbn [is_assignment]. rewrite Hok. cbn [andb].
  now rewrite select_single.
Qed.

(** C6 (as amended).  With [Meters] and [Seconds] two aliases over
    [double]: [m + s] compiles, both operands decaying to [double] through
    the implicit conversion, and is the plain [double] 7.0; and
    [(m + n) == Meters{8.0}] compiles and is true. *)
Theorem meters_seconds_scenario :
  let m := @construct float 5%float in
  let n := @construct float 3%float in
  let s := @construct float 2%float in
  declared composition (b_arith op_add) = None
  /\ resolve (b_arith op_add) (lv Meters) (lv Seconds)
     = Selected (builtin (b_arith op_add) (t_arith Double) (t_arith Double))
  /\ evaluate (b_arith op_add) (lv Meters) (lv Seconds) (operator_T m) (operator_T s)
     = Some (res_T 7%float)
  /\ resolve (b_arith op_add) (lv Meters) (lv Meters)
     = Selected (builtin (b_arith op_add) (t_arith Double) (t_arith Double))
  /\ result_of (lv Meters) (builtin (b_arith op_add) (t_arith Double) (t_arith Double))
     = Some (rv (t_arith Double))
  /\ evaluate (b_arith op_add) (lv Meters) (lv Meters) (operator_T m) (operator_T n)
     = Some (res_T 8%float)
  /\ initialized direct Meters [rv (t_arith Double)] [8%float]
     = Some (construct 8%float)
  /\ resolve (b_compare op_eq) (rv (t_arith Double)) (rv Meters)
     = Selected (builtin (b_compare op_eq) (t_arith Double) (t_arith Double))
  /\ evaluate (b_compare op_eq) (rv (t_arith Double)) (rv Meters)
       8%float (operator_T (@construct float 8%float))
     = Some (res_bool true).
Proof.
  intros m n s.
  assert (HM : alias_type Meters (t_arith Double) "Meters") by constructor.
  assert (HS : alias_type Seconds (t_arith Double) "Seconds") by constructor.
  assert (Hms : resolve (b_arith op_add) (lv Meters) (lv Seconds)
                = Selected (builtin (b_arith op_add) (t_arith Double) (t_arith Double))).
  { apply (arithmetic_decays Meters Seconds (t_arith Double) (t_arith Double)
             "Meters" "Seconds"); auto; reflexivity. }
  assert (Hmn : resolve (b_arith op_add) (lv Meters) (lv Meters)
                = Selected (builtin (b_arith op_add) (t_arith Double) (t_arith Double))).
  { apply (arithmetic_decays Meters Meters (t_arith Double) (t_arith Double)
             "Meters" "Meters"); auto; reflexivity. }
  assert (Heq : resolve (b_compare op_eq) (rv (t_arith Double)) (rv Meters)
                = Selected (builtin (b_compare op_eq) (t_arith Double) (t_arith Double))).
  { apply (scalar_compares_with_alias Meters (t_arith Double) "Meters"); auto;
      reflexivity. }
  split; [reflexivity|]. split; [exact Hms|].
  split; [unfold evaluate; rewrite Hms; reflexivity|].
  split; [exact Hmn|]. split; [reflexivity|].
  split; [unfold evaluate; rewrite Hmn; reflexivity|].
  split.
  { unfold initialized.
    rewrite (initialize_from_scalar Meters (t_arith Double) "Meters"
               (rv (t_arith Double)) HM); reflexivity. }
  split; [exact Heq|].
  unfold evaluate. rewrite Heq. reflexivity.
Qed.

(** C6 as stated fails: [m + s] compiles. *)
Lemma meters_plus_seconds_compiles :
  "Meters" <> "Seconds"
  /\ compiles (resolve (b_arith op_add) (lv Meters) (lv Seconds)) = true.
Proof. split; [discriminate | reflexivity]. Qed.

End Scenario.

(* ================================================================== *)
(** ** Increment and decrement *)

Module Increment.
Import Cxx strong Overload Init Operators Runtime Shapes Facts Selection Construction.


Section StepOnScalarAlias.
Variables (A T : ty) (Name : marker) (x : operand).
Hypothesis HA : alias_type A T Name.
Hypothesis Hs : is_scalar T = true.
Hypothesis Hx : of_type x A.







End StepOnScalarAlias.



(** Which representation types have the built-in operators, and what the
    header's test program relies on (lines 204, 226 and 239). *)
Lemma step_examples :
  builtin_step_ok (t_arith Int) = true
  /\ builtin_step_ok (t_arith Double) = true
  /\ builtin_step_ok (t_ptr (t_arith Int)) = true
  /\ builtin_step_ok (t_arith Bool) = false
  /\ builtin_step_ok (t_enum "E") = false
  /\ builtin_step_ok t_nullptr = false
  /\ builtin_step_ok (t_ptr t_void) = false
  /\ builtin_step_ok (t_const (t_arith Int)) = false
  /\ (forall o, resolve_step o (lv test_A) = Selected (member_step o))
  /\ (forall o, resolve_step o (lv test_D) = Selected (member_step o))
  /\ (forall o, resolve_step o (lv test_C) = Selected (member_step o))
  /\ (forall o, resolve_step o (lv (t_const test_A)) = NoViable)
  /\ (forall o, resolve_step o (lv (alias (t_arith Bool) "Flag")) = NoViable).
Proof.
  repeat split; intros o; destruct o; reflexivity.
Qed.


End Increment.

(* ================================================================== *)
(** ** The operand classification *)

Module Classification.
Import Cxx strong Overload Init Operators Shapes Facts.

(** X1.  The three-way classification of an operand against an identity is
    total and exclusive: exactly one of "no alias", "same alias" and
    "different alias" holds, and the clause of the assignment operators is
    the negation of the clause of the deleted comparison operators. *)
Theorem classification_trichotomy (Arg : ty) (Name : marker) :
  ((is_alias Arg = false /\ is_same_alias Arg Name = false
    /\ is_different_alias Arg Name = false)
   \/ (is_alias Arg = true /\ is_same_alias Arg Name = true
       /\ is_different_alias Arg Name = false)
   \/ (is_alias Arg = true /\ is_same_alias Arg Name = false
       /\ is_different_alias Arg Name = true))
  /\ not_alias_or_same_alias Name Arg = negb (is_different_alias Arg Name)
  /\ is_alias Arg = is_same_alias Arg Name || is_different_alias Arg Name.
Proof.
  unfold not_alias_or_same_alias, is_same_alias, is_different_alias.
  destruct (is_alias Arg) eqn:Ha;
    destruct (is_base_of (alias_name Name) (rm_cvref_t Arg)) eqn:Hb; simpl.
  - split; [right; left; auto | split; reflexivity].
  - split; [right; right; auto | split; reflexivity].
  - split; [left; auto | split; reflexivity].
  - split; [left; auto | split; reflexivity].
Qed.

Lemma rm_cvref_lref (U : ty) : rm_cvref_t (t_lref U) = remove_cv U.
Proof. reflexivity. Qed.

(** What [remove_cvref_t] leaves of an object type, however it is
    qualified or referred to. *)
Lemma rm_cvref_object (U : ty) :
  is_lvalue_reference (remove_cv U) || is_rvalue_reference (remove_cv U) = false ->
  rm_cvref_t U = remove_cv U
  /\ rm_cvref_t (t_const U) = remove_cv U
  /\ rm_cvref_t (t_lref U) = remove_cv U
  /\ rm_cvref_t (t_rref U) = remove_cv U
  /\ rm_cvref_t (remove_cv U) = remove_cv U.
Proof.
  intros H. unfold rm_cvref_t, remove_cvref.
  assert (Hu : remove_reference U = U).
  { destruct U; try reflexivity; simpl in H; discriminate. }
  assert (Hr : remove_reference (remove_cv U) = remove_cv U).
  { destruct (remove_cv U); try reflexivity; simpl in H; discriminate. }
  simpl. rewrite Hu, Hr, remove_cv_idem. repeat split.
Qed.

(** X2.  The classification of an operand does not depend on how it is
    passed: const-qualification, an lvalue or rvalue reference, the type
    deduced for a forwarding reference [Arg&&] (constructors) and the type
    deduced for [const Arg&] (operators) are all classified as the bare
    operand type is. *)
Theorem classification_ignores_cv_and_references (x : operand) (Name : marker) :
  is_lvalue_reference (remove_cv (o_ty x))
  || is_rvalue_reference (remove_cv (o_ty x)) = false ->
  let U := remove_cv (o_ty x) in
  (forall W, In W [o_ty x; t_const (o_ty x); t_lref (o_ty x); t_rref (o_ty x);
                   deduce_forwarding x; deduce_const_ref x] ->
     is_alias W = is_alias U
     /\ is_same_alias W Name = is_same_alias U Name
     /\ is_different_alias W Name = is_different_alias U Name).
Proof.
  intros H U W HW.
  destruct (rm_cvref_object (o_ty x) H) as (H0 & H1 & H2 & H3 & H4).
  assert (E : rm_cvref_t W = rm_cvref_t U).
  { unfold U. rewrite H4.
    simpl in HW.
    destruct HW as [<-|[<-|[<-|[<-|[<-|[<-|[]]]]]]]; auto.
    unfold deduce_forwarding. destruct (o_cat x); auto. }
  unfold is_same_alias, is_different_alias, is_alias. rewrite E. repeat split.
Qed.

Lemma classification_ignores_cv_witness :
  is_alias (t_lref (t_const test_A)) = true
  /\ is_same_alias (deduce_forwarding (rv (t_const test_A))) "A" = true
  /\ is_different_alias (deduce_const_ref (lv (t_const test_A))) "B" = true.
Proof.
  pose proof (classification_ignores_cv_and_references
                (lv (t_const test_A)) "A" eq_refl) as H.
  pose proof (classification_ignores_cv_and_references
                (rv (t_const test_A)) "A" eq_refl) as H'.
  pose proof (classification_ignores_cv_and_references
                (lv (t_const test_A)) "B" eq_refl) as H''.
  simpl in H, H', H''.
  split; [|split].
  - destruct (H (t_lref (t_const test_A))) as (E & _); [simpl; auto|].
    rewrite E. reflexivity.
  - destruct (H' (deduce_forwarding (rv (t_const test_A)))) as (_ & E & _);
      [simpl; auto 10|]. rewrite E. reflexivity.
  - destruct (H'' (deduce_const_ref (lv (t_const test_A)))) as (_ & _ & E);
      [simpl; auto 10|]. rewrite E. reflexivity.
Defined.

(** X3.  The variant of the header that classifies through [std::decay_t]
    and the header, which classifies through [remove_cvref_t], agree on
    every type: the two differ on arrays only, and neither an array nor the
    pointer it decays to is a class. *)
Theorem decay_and_remove_cvref_classify_alike (Arg : ty) (Name : marker) :
  strong_2024.is_alias Arg = strong.is_alias Arg
  /\ strong_2024.is_same_alias Arg Name = strong.is_same_alias Arg Name
  /\ strong_2024.is_different_alias Arg Name = strong.is_different_alias Arg Name.
Proof.
  assert (E : forall Base,
             is_base_of Base (strong_2024.decay_t Arg)
             = is_base_of Base (rm_cvref_t Arg)).
  { intros Base. unfold strong_2024.decay_t, rm_cvref_t, remove_cvref.
    destruct (remove_reference Arg) as
      [ | | | | | | u | | | | | | | u | | ]; try reflexivity.
    - unfold is_base_of. simpl. now rewrite !andb_false_r.
    - destruct u; try reflexivity.
      unfold is_base_of. simpl. now rewrite !andb_false_r. }
  unfold strong_2024.is_alias, strong_2024.is_same_alias,
    strong_2024.is_different_alias, strong.is_alias, strong.is_same_alias,
    strong.is_different_alias, strong_2024.is_alias.
  rewrite !E. repeat split.
Qed.

End Classification.

(* ================================================================== *)
(** ** Identity of an alias *)

Module Identity.
Import Cxx strong Overload Init Operators Shapes Facts Selection Construction Assignment.

(** X4.  The identity of an alias is its [Name] alone: an alias over any
    representation type is the same alias as [N] exactly when [N] is its own
    name, and a different alias otherwise.  So two aliases that share a name
    are interchangeable for the operators whatever their representation
    types: between them a comparison is not deleted and goes to the
    built-in operator, and a compound assignment is accepted. *)
Theorem identity_is_the_name
    (A B TA TB : ty) (Name : marker) (x y : operand)
    (c : compare_op) (o : assign_op) :
  alias_type A TA Name -> alias_type B TB Name ->
  is_scalar TA = true -> is_scalar TB = true ->
  of_type x A -> is_const (o_ty x) = false -> is_const TA = false ->
  of_type y B ->
  (forall N, is_same_alias A N = true <-> N = Name)
  /\ (forall N, is_different_alias A N = true <-> N <> Name)
  /\ (builtin_ok (b_compare c) (remove_cv TA) (remove_cv TB) = true ->
      resolve (b_compare c) x y
      = Selected (builtin (b_compare c) (remove_cv TA) (remove_cv TB)))
  /\ (o <> op_assign ->
      builtin_ok (b_assign o) (remove_cv TA) (remove_cv TB) = true ->
      resolve (b_assign o) x y = Selected (member (b_assign o) B)).
Proof.
  intros HA HB HsA HsB Hx Hxc HTc Hy.
  pose proof (rep_scalar TA HsA) as HTA.
  pose proof (rep_scalar TB HsB) as HTB.
  split; [|split; [|split]].
  - intros N. rewrite (is_same_alias_alias A TA composition Name HA HTA).
    apply String.eqb_eq.
  - intros N. rewrite (is_different_alias_alias A TA composition Name HA HTA).
    rewrite negb_true_iff. apply String.eqb_neq.
  - intros Hok. unfold resolve, operator_candidates.
    rewrite (proj1 (nonmember_scalar_alias A TA Name x y (b_compare c) HA HsA Hx)),
      app_nil_r.
    unfold member_candidates.
    rewrite (alias_of_operand A TA composition Name x HA HTA Hx).
    cbn [declared mt_requires hidden negb andb].
    rewrite (deduce_const_ref_operand B y Hy).
    rewrite (is_different_alias_alias B TB composition Name HB HTB).
    rewrite String.eqb_refl. cbn [negb].
    assert (Ho : match object_ics (negb (is_assignment (b_compare c))) x with
                 | Some _ => @nil (candidate op_fn) | None => [] end = [])
      by (now destruct (object_ics _ x)).
    rewrite Ho. cbn [app implicit_assign_candidates].
    unfold builtin_candidates.
    rewrite (offers_alias_operand A TA Name x HA HsA Hx).
    rewrite (offers_alias_operand B TB Name y HB HsB Hy).
    cbn [is_assignment]. rewrite Hok. cbn [andb].
    now rewrite select_single.
  - intros Ho Hok. unfold resolve, operator_candidates.
    rewrite (proj1 (nonmember_scalar_alias A TA Name x y (b_assign o) HA HsA Hx)),
      app_nil_r.
    rewrite (no_builtin_assignment A TA composition Name x y o HA HTA Hx), app_nil_r.
    assert (Hi : implicit_assign_candidates (b_assign o) x y = []).
    { destruct o; try reflexivity. congruence. }
    rewrite Hi, app_nil_r.
    rewrite (member_candidates_assignment A TA composition Name x y o HA HTA Hx Hxc)
      by (unfold hidden_in_macro; destruct o; try congruence; apply andb_false_r).
    rewrite (deduce_const_ref_operand B y Hy).
    assert (Hcl : not_alias_or_same_alias Name B = true).
    { unfold not_alias_or_same_alias.
      rewrite (is_same_alias_alias B TB composition Name HB HTB), String.eqb_refl.
      apply orb_true_r. }
    rewrite Hcl, select_single. unfold chosen. cbn [cand_deleted cand_fn].
    unfold member_body_ok.
    rewrite (alias_of_operand A TA composition Name x HA HTA Hx), HTc.
    rewrite (offers_alias_operand B TB Name y HB HsB Hy), Hok. reflexivity.
Qed.

Lemma identity_is_the_name_witness :
  resolve (b_compare op_eq) (lv (alias (t_arith Int) "Id")) (lv (alias (t_arith Long) "Id"))
  = Selected (builtin (b_compare op_eq) (t_arith Int) (t_arith Long))
  /\ resolve (b_assign op_add_assign)
       (lv (alias (t_arith Int) "Id")) (lv (alias (t_arith Long) "Id"))
     = Selected (member (b_assign op_add_assign) (alias (t_arith Long) "Id")).
Proof.
  destruct (identity_is_the_name
              (alias (t_arith Int) "Id") (alias (t_arith Long) "Id")
              (t_arith Int) (t_arith Long) "Id"
              (lv (alias (t_arith Int) "Id")) (lv (alias (t_arith Long) "Id"))
              op_eq op_add_assign) as (_ & _ & Hc & Ha).
  - constructor.
  - constructor.
  - reflexivity.
  - reflexivity.
  - reflexivity.
  - reflexivity.
  - reflexivity.
  - reflexivity.
  - split; [apply Hc; reflexivity | apply Ha; [discriminate | reflexivity]].
Defined.

(** X5.  The struct the macro declares is final, so it can never serve as a
    representation type: an alias over it has no body and declaring one is
    rejected.  The specialisation [alias<T,Name>] itself is a class that is
    not final: an alias over it gets the inheritance body and then carries
    both identities, its own and the one it inherits. *)
Theorem aliases_of_aliases
    (T : ty) (b : body) (N1 N2 N : marker) :
  rep_type T b ->
  instantiate (STRONG_ALIAS N1 T) = Incomplete
  /\ declare N2 (STRONG_ALIAS N1 T) = IncompleteBase
  /\ instantiate (alias T N1) = Body inheritance
  /\ declare N2 (alias T N1) = Declared (STRONG_ALIAS N2 (alias T N1))
  /\ is_alias (alias (alias T N1) N2) = true
  /\ is_same_alias (alias (alias T N1) N2) N = String.eqb N N2 || String.eqb N N1
  /\ is_different_alias (alias (alias T N1) N2) N
     = negb (String.eqb N N2 || String.eqb N N1).
Proof.
  intros HT.
  assert (Hi : instantiate (alias T N1) = Body inheritance).
  { apply instantiate_class; [reflexivity|].
    exact (alias_not_final T b N1 HT). }
  assert (Hb : bases (alias (alias T N1) N2)
               = alias_name N2 :: is_alias_t :: alias T N1 :: bases (alias T N1)).
  { simpl. unfold alias_bases at 1. now rewrite Hi. }
  assert (Ha : is_alias (alias (alias T N1) N2) = true).
  { unfold is_alias, rm_cvref_t, remove_cvref, is_base_of.
    cbn [remove_reference remove_cv is_class andb]. rewrite Hb.
    cbn [existsb]. rewrite (ty_eqb_refl is_alias_t). now rewrite !orb_true_r. }
  assert (Hn : is_base_of (alias_name N) (alias (alias T N1) N2)
               = String.eqb N N2 || String.eqb N N1).
  { unfold is_base_of. cbn [remove_cv is_class andb]. rewrite Hb.
    cbn [existsb]. rewrite (bases_alias T b N1 HT).
    destruct (rep_not_strong T b HT) as (_ & HnT & _).
    rewrite !ty_eqb_alias_name.
    rewrite (ty_eqb_neq (alias_name N) (alias (alias T N1) N2)) by discriminate.
    rewrite (ty_eqb_neq (alias_name N) is_alias_t) by discriminate.
    rewrite (ty_eqb_neq (alias_name N) (alias T N1)) by discriminate.
    destruct b; cbn [existsb]; rewrite ?ty_eqb_alias_name;
      rewrite ?(ty_eqb_neq (alias_name N) is_alias_t) by discriminate;
      rewrite ?(ty_eqb_neq (alias_name N) T) by auto;
      cbn [orb]; now rewrite ?orb_false_r. }
  split; [reflexivity|]. split; [reflexivity|]. split; [exact Hi|].
  split; [unfold declare; now rewrite Hi|]. split; [exact Ha|].
  split.
  - unfold is_same_alias. rewrite Ha. cbn [andb].
    unfold rm_cvref_t, remove_cvref. cbn [remove_reference remove_cv]. exact Hn.
  - unfold is_different_alias. rewrite Ha. cbn [andb].
    unfold rm_cvref_t, remove_cvref. cbn [remove_reference remove_cv].
    now rewrite Hn.
Qed.

Lemma aliases_of_aliases_witness :
  declare "Outer" test_A = IncompleteBase
  /\ is_same_alias (alias (alias (t_arith Int) "Inner") "Outer") "Inner" = true
  /\ is_same_alias (alias (alias (t_arith Int) "Inner") "Outer") "Outer" = true.
Proof.
  split; [|split].
  - apply (aliases_of_aliases (t_arith Int) composition "A" "Outer" "A").
    constructor. reflexivity.
  - destruct (aliases_of_aliases (t_arith Int) composition "Inner" "Outer" "Inner")
      as (_ & _ & _ & _ & _ & E & _); [constructor; reflexivity|].
    rewrite E. reflexivity.
  - destruct (aliases_of_aliases (t_arith Int) composition "Inner" "Outer" "Outer")
      as (_ & _ & _ & _ & _ & E & _); [constructor; reflexivity|].
    rewrite E. reflexivity.
Defined.

End Identity.

(* ================================================================== *)
(** ** More on construction *)

Module ConstructionMore.
Import Cxx strong Overload Init Operators Shapes Facts Selection Construction.

(** X6.  A scalar alias never takes more than one initialiser: with two or
    more arguments that are all aliases the pack constructor is selected and
    its [static_assert] rejects the call; with any other two or more
    arguments, and in every copy-initialisation, no constructor is viable. *)
Theorem more_than_one_initializer_rejected
    (A T : ty) (Name : marker) (k : init_kind) (args : list operand) :
  alias_type A T Name -> is_scalar T = true -> 2 <= length args ->
  compiles (initialize k A args) = false
  /\ (k = direct -> forallb is_alias (map deduce_forwarding args) = true ->
      initialize k A args
      = IllFormedBody (by_template ctor_pack (map deduce_forwarding args)))
  /\ (k = copy \/ forallb is_alias (map deduce_forwarding args) = false ->
      initialize k A args = NoViable).
Proof.
  intros HA Hs Hlen.
  destruct args as [|a [|b rest]]; simpl in Hlen; try lia.
  assert (Hc : constructors k A (a :: b :: rest)
               = if forallb is_alias (map deduce_forwarding (a :: b :: rest))
                    && match k with direct => true | copy => false end
                 then [ {| cand_fn := by_template ctor_pack
                                        (map deduce_forwarding (a :: b :: rest));
                           cand_ics := map (fun _ => ics_identity) (a :: b :: rest);
                           cand_template := true; cand_pack := true;
                           cand_deleted := false |} ]
                 else []).
  { unfold constructors.
    rewrite (alias_of_alias A T composition Name HA (rep_scalar T Hs)).
    unfold template_candidate, implicit_candidates, excluded_inherited.
    cbn [length ctor_arity Nat.eqb ctor_requires ctor_explicit negb andb app].
    destruct (remove_cv A); destruct k;
      destruct (forallb is_alias (map deduce_forwarding (a :: b :: rest)));
      reflexivity. }
  unfold initialize. rewrite Hc.
  rewrite (alias_of_alias A T composition Name HA (rep_scalar T Hs)).
  destruct (forallb is_alias (map deduce_forwarding (a :: b :: rest))) eqn:Hall;
    destruct k; cbn [andb]; rewrite ?select_single;
    cbn [chosen cand_deleted cand_fn select ctor_static_assert length map
         Nat.leb andb compiles];
    (split; [reflexivity|]); split; intros; try reflexivity; try discriminate;
    match goal with
    | H : _ \/ _ |- _ => destruct H; discriminate
    end.
Qed.

Lemma more_than_one_initializer_witness :
  initialize direct test_A [lv test_A; lv test_B]
  = IllFormedBody (by_template ctor_pack [t_lref test_A; t_lref test_B])
  /\ initialize direct test_A [rv (t_arith Int); rv (t_arith Int)] = NoViable.
Proof.
  destruct (more_than_one_initializer_rejected test_A (t_arith Int) "A" direct
              [lv test_A; lv test_B]) as (_ & H & _).
  - constructor.
  - reflexivity.
  - simpl. lia.
  - destruct (more_than_one_initializer_rejected test_A (t_arith Int) "A" direct
                [rv (t_arith Int); rv (t_arith Int)]) as (_ & _ & H').
    + constructor.
    + reflexivity.
    + simpl. lia.
    + split; [apply H; reflexivity | apply H'; right; reflexivity].
Defined.

(** X7.  Default construction of an alias of either body calls the pack
    constructor with the empty pack, and both folds of its [noexcept]
    expression over the empty pack are true: the default constructor is
    [noexcept] exactly when [T] is nothrow-copy-constructible or
    nothrow-move-constructible, so always for a scalar [T].  Initialising
    from an empty pair of braces, [A a = {}], is rejected for the
    specialisation, whose default constructor is [explicit], and accepted
    for a struct the macro declares, whose implicitly declared default
    constructor is not. *)
Theorem default_construction_noexcept
    (A T : ty) (b : body) (Name : marker) :
  alias_type A T Name -> rep_type T b ->
  initialize direct A [] = Selected (by_template ctor_pack [])
  /\ compiles (initialize copy A []) = is_macro_struct A
  /\ (is_macro_struct A = true ->
      initialize copy A [] = Selected (by_template ctor_pack [])
      /\ initialize_noexcept copy A [] = initialize_noexcept direct A [])
  /\ initialize_noexcept direct A []
     = Some (is_nothrow_copy_constructible T || is_nothrow_move_constructible T)
  /\ (b = composition -> initialize_noexcept direct A [] = Some true).
Proof.
  intros HA HT.
  assert (Hi : initialize direct A [] = Selected (by_template ctor_pack [])).
  { unfold initialize.
    rewrite (constructors_default A T b Name HA HT), select_single.
    rewrite (alias_of_alias A T b Name HA HT). destruct b; reflexivity. }
  assert (Hn : initialize_noexcept direct A []
               = Some (is_nothrow_copy_constructible T
                       || is_nothrow_move_constructible T)).
  { unfold initialize_noexcept.
    rewrite Hi, (alias_of_alias A T b Name HA HT). reflexivity. }
  assert (Hc : initialize copy A []
               = if is_macro_struct A then Selected (by_template ctor_pack [])
                 else NoViable).
  { destruct (is_macro_struct A) eqn:Hm.
    - rewrite <- Hi. unfold initialize, constructors. now rewrite Hm.
    - unfold initialize, constructors.
      rewrite (alias_of_alias A T b Name HA HT), Hm.
      unfold template_candidate.
      cbn [length ctor_arity ctor_explicit negb Nat.eqb].
      rewrite !andb_false_r. reflexivity. }
  split; [exact Hi|]. split; [rewrite Hc; now destruct (is_macro_struct A)|].
  split.
  { intros Hm. rewrite Hm in Hc. split; [exact Hc|].
    unfold initialize_noexcept. now rewrite Hc, Hi. }
  split; [exact Hn|].
  intros ->. rewrite Hn. inversion HT as [T' Hs|]; subst.
  now rewrite (scalar_nothrow_copy T Hs).
Qed.

Lemma default_construction_noexcept_witness :
  initialize_noexcept direct (STRONG_ALIAS "V" vector_class) [] = Some true
  /\ initialize_noexcept direct test_D [] = Some true
  /\ compiles (initialize copy test_D []) = true
  /\ compiles (initialize copy (alias (t_ptr (t_arith Int)) "D") []) = false.
Proof.
  destruct (default_construction_noexcept (STRONG_ALIAS "V" vector_class)
              vector_class inheritance "V") as (_ & _ & _ & H1 & _).
  - constructor.
  - constructor. reflexivity.
  - destruct (default_construction_noexcept test_D (t_ptr (t_arith Int))
                composition "D") as (_ & H2 & _ & _ & H3).
    + constructor.
    + constructor. reflexivity.
    + destruct (default_construction_noexcept (alias (t_ptr (t_arith Int)) "D")
                  (t_ptr (t_arith Int)) composition "D") as (_ & H4 & _).
      * constructor.
      * constructor. reflexivity.
      * split; [exact H1|]. split; [apply H3; reflexivity|].
        split; [exact H2 | exact H4].
Defined.

End ConstructionMore.

(* ================================================================== *)
(** ** Copying and moving an alias *)

Module CopyMove.
Import Cxx strong Overload Init Operators Shapes Facts Selection Construction.


Section SameAliasConstruction.
Variables (A T : ty) (b : body) (Name : marker) (x : operand).
Hypothesis HA : alias_type A T Name.
Hypothesis HT : rep_type T b.
Hypothesis Hx : of_type x A.

Lemma pack_accepts_same : ctor_requires b ctor_pack Name [deduce_forwarding x] = true.
Proof. exact (pack_accepts_alias A T T b b Name Name x HA HT HT Hx). Qed.

Lemma single_on_same :
  ctor_requires b ctor_single Name [deduce_forwarding x]
  = match b with composition => false | inheritance => true end.
Proof.
  destruct b; simpl.
  - now rewrite (is_alias_forwarding A T composition Name x HA HT Hx).
  - rewrite (forwarded_alias A T Name x HA Hx).
    rewrite (is_same_alias_alias A T inheritance Name HA HT), String.eqb_refl.
    apply orb_true_r.
Qed.

Lemma excluded_on_same : excluded_inherited A [x] = is_macro_struct A.
Proof.
  unfold excluded_inherited, is_macro_struct.
  rewrite (alias_type_remove_cv A T Name HA).
  destruct HA as [T0 N|T0 N]; [reflexivity|].
  rewrite Hx. unfold is_base_of. cbn [is_class remove_cv andb].
  rewrite (ty_eqb_refl (STRONG_ALIAS N T0)).
  cbn [bases existsb]. rewrite (ty_eqb_refl (alias T0 N)).
  now rewrite !orb_true_r.
Qed.

Lemma related_on_same :
  is_base_of (remove_cv A) (o_ty x) = true
  /\ ty_eqb (remove_cv (o_ty x)) (remove_cv A) = true.
Proof.
  rewrite (alias_type_remove_cv A T Name HA), Hx, ty_eqb_refl.
  split; [|reflexivity]. unfold is_base_of.
  rewrite <- (is_class_remove_cv (o_ty x)), Hx.
  rewrite (alias_type_class A T Name HA), (alias_type_remove_cv A T Name HA).
  now rewrite ty_eqb_refl.
Qed.

(** Which constructor copies or moves an alias from an alias of its own
    type. *)
Lemma copy_move_selected :
  select (constructors direct A [x])
  = Selected
      (match o_cat x, is_const (o_ty x), is_macro_struct A, b with
       | lvalue, false, false, composition => by_template ctor_pack [deduce_forwarding x]
       | lvalue, false, false, inheritance => by_template ctor_single [deduce_forwarding x]
       | lvalue, _, _, _ => implicit_copy
       | rvalue, false, _, _ => implicit_move
       | rvalue, true, true, _ => implicit_copy
       | rvalue, true, false, composition => by_template ctor_pack [deduce_forwarding x]
       | rvalue, true, false, inheritance => by_template ctor_single [deduce_forwarding x]
       end).
Proof.
  unfold constructors.
  rewrite (alias_of_alias A T b Name HA HT).
  unfold template_candidate, implicit_candidates.
  destruct related_on_same as (Hr & Hs).
  cbv zeta. cbn [map length].
  rewrite pack_accepts_same, single_on_same, excluded_on_same, Hr, Hs.
  cbn [length map ctor_arity Nat.eqb andb negb].
  destruct (o_cat x), (is_const (o_ty x)), (is_macro_struct A), b; reflexivity.
Qed.

Lemma copy_move_initialize :
  initialize direct A [x] = select (constructors direct A [x]).
Proof.
  unfold initialize. rewrite copy_move_selected.
  rewrite (alias_of_alias A T b Name HA HT).
  rewrite (member_init_same_rep A T b Name x HA HT Hx).
  destruct (o_cat x), (is_const (o_ty x)), (is_macro_struct A), b; reflexivity.
Qed.

End SameAliasConstruction.

(** X9.  Copying and moving an alias mirror [T]: direct-initialisation of
    an alias from an object of its own type always compiles, from an lvalue
    it is [noexcept] exactly when [T] is nothrow-copy-constructible and from
    a non-const rvalue exactly when [T] is nothrow-move-constructible, for
    both bodies and for the specialisation as well as the macro struct. *)
Theorem copy_and_move_mirror_representation
    (A T : ty) (b : body) (Name : marker) (x : operand) :
  alias_type A T Name -> rep_type T b -> of_type x A ->
  compiles (initialize direct A [x]) = true
  /\ (o_cat x = lvalue ->
      initialize_noexcept direct A [x] = Some (is_nothrow_copy_constructible T))
  /\ (o_cat x = rvalue -> is_const (o_ty x) = false ->
      initialize direct A [x] = Selected implicit_move
      /\ initialize_noexcept direct A [x] = Some (is_nothrow_move_constructible T)).
Proof.
  intros HA HT Hx.
  pose proof (copy_move_initialize A T b Name x HA HT Hx) as Hi.
  rewrite (copy_move_selected A T b Name x HA HT Hx) in Hi.
  split; [now rewrite Hi|]. split.
  - intros Hl. unfold initialize_noexcept.
    rewrite Hi, (alias_of_alias A T b Name HA HT), Hl.
    pose proof (noexcept_lvalue_argument T x Hl) as Hn.
    destruct (is_const (o_ty x)), (is_macro_struct A), b;
      try reflexivity; now rewrite Hn.
  - intros Hr Hc. rewrite Hr, Hc in Hi.
    split; [exact Hi|].
    unfold initialize_noexcept.
    now rewrite Hi, (alias_of_alias A T b Name HA HT).
Qed.

Lemma copy_and_move_witness :
  initialize_noexcept direct (STRONG_ALIAS "V" vector_class)
    [lv (STRONG_ALIAS "V" vector_class)] = Some false
  /\ initialize_noexcept direct (STRONG_ALIAS "V" vector_class)
       [rv (STRONG_ALIAS "V" vector_class)] = Some true
  /\ initialize_noexcept direct (alias (t_arith Int) "A")
       [lv (alias (t_arith Int) "A")] = Some true.
Proof.
  destruct (copy_and_move_mirror_representation (STRONG_ALIAS "V" vector_class)
              vector_class inheritance "V" (lv (STRONG_ALIAS "V" vector_class)))
    as (_ & Hl & _).
  - constructor.
  - constructor. reflexivity.
  - reflexivity.
  - destruct (copy_and_move_mirror_representation (STRONG_ALIAS "V" vector_class)
                vector_class inheritance "V" (rv (STRONG_ALIAS "V" vector_class)))
      as (_ & _ & Hr).
    + constructor.
    + constructor. reflexivity.
    + reflexivity.
    + destruct (copy_and_move_mirror_representation (alias (t_arith Int) "A")
                  (t_arith Int) composition "A" (lv (alias (t_arith Int) "A")))
        as (_ & Hl' & _).
      * constructor.
      * constructor. reflexivity.
      * reflexivity.
      * split; [apply Hl; reflexivity|].
        split; [apply Hr; reflexivity | apply Hl'; reflexivity].
Defined.

End CopyMove.

(* ================================================================== *)
(** ** Const objects and the operators of the inheritance body *)

Module OperatorsMore.
Import Cxx strong Overload Init Operators Runtime Shapes Facts Selection Construction Assignment.

(** X10.  A const alias object is never assignable: the assignment
    operators are non-const members, the implicitly declared ones want a
    modifiable object and no built-in assignment applies, so every
    assignment and compound assignment on a const alias, from any operand,
    is rejected for want of a candidate. *)
Theorem const_alias_not_assignable
    (A T : ty) (b : body) (Name : marker) (x y : operand) (o : assign_op) :
  alias_type A T Name -> rep_type T b ->
  of_type x A -> is_const (o_ty x) = true ->
  resolve (b_assign o) x y = NoViable
  /\ option_map mt_deleted (declared b (b_assign o)) = Some false.
Proof.
  intros HA HT Hx Hc. split; [|now rewrite declared_assignment].
  unfold resolve, operator_candidates.
  rewrite (nonmember_const_object o x y Hc), app_nil_r.
  rewrite (no_builtin_assignment A T b Name x y o HA HT Hx), app_nil_r.
  assert (Hm : member_candidates (b_assign o) x y = []).
  { unfold member_candidates.
    rewrite (alias_of_operand A T b Name x HA HT Hx), declared_assignment.
    unfold object_ics. cbn [is_assignment negb andb]. now rewrite Hc. }
  assert (Hi : implicit_assign_candidates (b_assign o) x y = []).
  { unfold implicit_assign_candidates. destruct o; try reflexivity.
    rewrite (alias_of_operand A T b Name x HA HT Hx). cbv zeta. now rewrite Hc. }
  now rewrite Hm, Hi.
Qed.

Lemma const_alias_witness :
  resolve (b_assign op_assign) (lv (t_const test_A)) (rv (t_arith Int)) = NoViable
  /\ resolve (b_assign op_add_assign) (lv (t_const test_X)) (lv test_X) = NoViable.
Proof.
  split.
  - apply (const_alias_not_assignable test_A (t_arith Int) composition "A"
             (lv (t_const test_A)) (rv (t_arith Int)) op_assign).
    + constructor.
    + constructor. reflexivity.
    + reflexivity.
    + reflexivity.
  - apply (const_alias_not_assignable test_X open_class inheritance "X"
             (lv (t_const test_X)) (lv test_X) op_add_assign).
    + constructor.
    + constructor. reflexivity.
    + reflexivity.
    + reflexivity.
Defined.

(** An operand of an alias with the inheritance body offers nothing to a
    built-in operator: that body has no conversion to [T]. *)
Lemma no_builtin_for_class_alias (A : ty) (n : string) (d : class_decl)
    (Name : marker) (x y : operand) (op : binop) :
  alias_type A (t_class n d) Name -> cls_final d = false -> of_type x A ->
  builtin_candidates op x y = [] /\ builtin_candidates op y x = [].
Proof.
  intros HA Hf Hx.
  assert (Ho : offers (o_ty x) = None).
  { unfold offers. rewrite (operand_not_scalar A _ Name x HA Hx).
    now rewrite (alias_of_operand A _ inheritance Name x HA (rep_class n d Hf) Hx). }
  unfold builtin_candidates. rewrite Ho. split; [reflexivity|].
  now destruct (offers (o_ty y)) as [[V u]|].
Qed.

Section ClassAliasComparison.
Variables (A : ty) (n : string) (d : class_decl) (NameA : marker)
  (x : operand) (op : binop).
Hypothesis HA : alias_type A (t_class n d) NameA.
Hypothesis Hf : cls_final d = false.
Hypothesis Hop : comparison_or_logical op.
Hypothesis Hx : of_type x A.

Lemma class_alias_member_candidates (w : operand) :
  exists oi, (oi = ics_base (alias (t_class n d) NameA)
              \/ oi = ics_added_cv \/ oi = ics_identity) /\
    member_candidates op x w
    = if not_alias_or_same_alias NameA (deduce_const_ref w)
      then [ {| cand_fn := member op (deduce_const_ref w);
                cand_ics := [oi; const_ref_ics w];
                cand_template := true; cand_pack := false;
                cand_deleted := false |} ]
      else [].
Proof.
  pose proof (rep_class n d Hf) as HT.
  assert (Hobj : exists oi, object_ics (negb (is_assignment op)) x = Some oi
            /\ (oi = ics_base (alias (t_class n d) NameA)
                \/ oi = ics_added_cv \/ oi = ics_identity)).
  { rewrite (object_ics_operand A _ NameA x HA Hx).
    destruct op; try contradiction; cbn [is_assignment negb andb];
      destruct (is_macro_struct A); eauto;
      destruct (is_const (o_ty x)); simpl; eauto. }
  destruct Hobj as (oi & Hoi & Hc). exists oi. split; [exact Hc|].
  unfold member_candidates.
  rewrite (alias_of_operand A _ inheritance NameA x HA HT Hx).
  destruct op; try contradiction;
    cbn [declared mt_requires mt_deleted hidden negb andb is_assignment] in *;
    rewrite Hoi; reflexivity.
Qed.

(** The candidates are the member template and what the representation
    class declares at namespace scope. *)
Lemma class_alias_candidates (w : operand) :
  operator_candidates op x w
  = member_candidates op x w ++ nonmember_candidates op x w.
Proof.
  unfold operator_candidates.
  destruct (no_builtin_for_class_alias A n d NameA x w op HA Hf Hx) as (-> & _).
  assert (Hi : implicit_assign_candidates op x w = [])
    by (destruct op; try contradiction; reflexivity).
  now rewrite Hi.
Qed.

(** Against an operand of another alias the body offers nothing; an
    operator of the representation class at namespace scope is selected
    when the other alias derives from that class too. *)
Lemma class_alias_other_alias (B TB : ty) (bB : body) (NameB : marker) (y : operand) :
  alias_type B TB NameB -> rep_type TB bB -> NameA <> NameB -> of_type y B ->
  member_candidates op x y = []
  /\ resolve op x y
     = if free_operator_of op (t_class n d) && ty_eqb (t_class n d) TB
       then Selected (nonmember_of_T op (t_class n d))
       else NoViable.
Proof.
  intros HB HTB Hd Hy.
  assert (Hm : member_candidates op x y = []).
  { destruct (class_alias_member_candidates y) as (oi & _ & ->).
    rewrite (deduce_const_ref_operand B y Hy).
    now rewrite (clause_rejects_other_alias B TB bB NameA NameB HB HTB Hd). }
  split; [exact Hm|].
  unfold resolve. rewrite class_alias_candidates, Hm. cbn [app].
  rewrite (nonmember_between_aliases A B _ TB inheritance bB NameA NameB x y op
             HA (rep_class n d Hf) HB HTB Hx Hy).
  assert (Ha : negb (is_assignment op) = true)
    by (destruct op; try contradiction; reflexivity).
  rewrite Ha. cbn [orb]. rewrite andb_true_r.
  destruct (free_operator_of op (t_class n d) && ty_eqb (t_class n d) TB);
    [now rewrite select_single | reflexivity].
Qed.

Lemma class_alias_no_candidate (B TB : ty) (NameB : marker) (y : operand) :
  alias_type B TB NameB -> is_scalar TB = true -> NameA <> NameB -> of_type y B ->
  resolve op x y = NoViable.
Proof.
  intros HB HsB Hd Hy.
  destruct (class_alias_other_alias B TB composition NameB y HB
              (rep_scalar TB HsB) Hd Hy) as (_ & ->).
  assert (E : ty_eqb (t_class n d) TB = false).
  { apply ty_eqb_neq. intros <-. discriminate. }
  now rewrite E, andb_false_r.
Qed.


End ClassAliasComparison.



End OperatorsMore.

(* ================================================================== *)
(** ** Operators with a plain operand *)

Module PlainOperands.
Import Cxx strong Overload Init Operators Runtime Shapes Facts Selection Construction Assignment.

Lemma scalar_alias_of_none (U : ty) : is_scalar U = true -> alias_of U = None.
Proof.
  intros Hs. unfold alias_of. destruct (remove_cv_scalar U Hs); reflexivity.
Qed.

Lemma scalar_not_alias (U : ty) : is_scalar U = true -> is_alias (remove_cv U) = false.
Proof.
  intros Hs. apply is_alias_not_class.
  destruct (remove_cv_scalar U Hs); reflexivity.
Qed.

Section PlainOperand.
Variables (A T : ty) (Name : marker) (x y : operand).
Hypothesis HA : alias_type A T Name.
Hypothesis Hs : is_scalar T = true.
Hypothesis Hx : of_type x A.
Hypothesis Hy : is_scalar (o_ty y) = true.

Lemma plain_operand_clause :
  not_alias_or_same_alias Name (deduce_const_ref y) = true
  /\ is_different_alias (deduce_const_ref y) Name = false.
Proof.
  unfold not_alias_or_same_alias, is_different_alias, deduce_const_ref.
  now rewrite (scalar_not_alias _ Hy).
Qed.


(** A comparison or logical operator between an alias and a plain scalar,
    in either order. *)
Lemma comparison_with_plain (op : binop) :
  comparison_or_logical op ->
  resolve op x y
  = (if builtin_ok op (remove_cv T) (remove_cv (o_ty y))
     then Selected (builtin op (remove_cv T) (remove_cv (o_ty y)))
     else NoViable)
  /\ resolve op y x
     = (if builtin_ok op (remove_cv (o_ty y)) (remove_cv T)
        then Selected (builtin op (remove_cv (o_ty y)) (remove_cv T))
        else NoViable).
Proof.
  intros Hop.
  assert (Hi : forall u w, implicit_assign_candidates op u w = [])
    by (intros u w; destruct op; try contradiction; reflexivity).
  assert (Ha : is_assignment op = false)
    by (destruct op; try contradiction; reflexivity).
  split.
  - unfold resolve, operator_candidates.
    rewrite (proj1 (nonmember_scalar_alias A T Name x y op HA Hs Hx)), app_nil_r.
    unfold member_candidates.
    rewrite (alias_of_operand A T composition Name x HA (rep_scalar T Hs) Hx).
    assert (Hm : match declared composition op with
                 | Some mt =>
                     match object_ics (negb (is_assignment op)) x with
                     | Some oi =>
                         if negb (hidden (o_ty x) op)
                            && mt_requires mt Name (deduce_const_ref y)
                         then [ {| cand_fn := member op (deduce_const_ref y);
                                   cand_ics := [oi; const_ref_ics y];
                                   cand_template := true; cand_pack := false;
                                   cand_deleted := mt_deleted mt |} ]
                         else []
                     | None => []
                     end
                 | None => @nil (candidate op_fn)
                 end = []).
    { destruct plain_operand_clause as (_ & Hd).
      destruct op; try contradiction; cbn [declared mt_requires];
        rewrite Hd, andb_false_r; now destruct (object_ics _ x). }
    destruct op; try contradiction; cbn [declared] in *; rewrite Hm, Hi;
      unfold builtin_candidates;
      rewrite (offers_alias_operand A T Name x HA Hs Hx),
        (offers_scalar_operand y Hy); cbn [is_assignment app];
      match goal with
      | |- context [builtin_ok ?o ?U ?V] => destruct (builtin_ok o U V)
      end; cbn [andb]; rewrite ?select_single; reflexivity.
  - unfold resolve, operator_candidates.
    rewrite (proj2 (nonmember_scalar_alias A T Name x y op HA Hs Hx)), app_nil_r.
    unfold member_candidates.
    rewrite (scalar_alias_of_none _ Hy), Hi.
    unfold builtin_candidates.
    rewrite (offers_alias_operand A T Name x HA Hs Hx),
      (offers_scalar_operand y Hy), Ha. cbn [app andb].
    destruct (builtin_ok op (remove_cv (o_ty y)) (remove_cv T));
      rewrite ?select_single; reflexivity.
Qed.

End PlainOperand.

(** X12.  The deleted comparison and logical operators never fire for a
    plain operand: between a scalar alias and a non-alias scalar value, in
    either order, the expression goes to the built-in operator of the
    representation type where that applies and finds no candidate where it
    does not; it is never rejected for use of a deleted function. *)
Theorem plain_operand_never_deleted
    (A T : ty) (Name : marker) (x y : operand) (op : binop) :
  alias_type A T Name -> is_scalar T = true ->
  of_type x A -> is_scalar (o_ty y) = true -> comparison_or_logical op ->
  (builtin_ok op (remove_cv T) (remove_cv (o_ty y)) = true ->
   resolve op x y = Selected (builtin op (remove_cv T) (remove_cv (o_ty y))))
  /\ (builtin_ok op (remove_cv (o_ty y)) (remove_cv T) = true ->
      resolve op y x = Selected (builtin op (remove_cv (o_ty y)) (remove_cv T)))
  /\ (forall f, resolve op x y <> UsesDeleted f /\ resolve op y x <> UsesDeleted f).
Proof.
  intros HA Hs Hx Hy Hop.
  destruct (comparison_with_plain A T Name x y HA Hs Hx Hy op Hop) as (H1 & H2).
  split; [|split].
  - intros Hok. now rewrite H1, Hok.
  - intros Hok. now rewrite H2, Hok.
  - intros f. rewrite H1, H2.
    destruct (builtin_ok op (remove_cv T) (remove_cv (o_ty y)));
      destruct (builtin_ok op (remove_cv (o_ty y)) (remove_cv T));
      split; discriminate.
Qed.

Lemma plain_operand_witness :
  resolve (b_compare op_eq) (lv test_A) (rv (t_arith Int))
  = Selected (builtin (b_compare op_eq) (t_arith Int) (t_arith Int))
  /\ resolve (b_compare op_ne) (rv t_nullptr) (lv test_D)
     = Selected (builtin (b_compare op_ne) t_nullptr (t_ptr (t_arith Int))).
Proof.
  split.
  - apply (plain_operand_never_deleted test_A (t_arith Int) "A"
             (lv test_A) (rv (t_arith Int)) (b_compare op_eq));
      try reflexivity; try exact I. constructor.
  - apply (plain_operand_never_deleted test_D (t_ptr (t_arith Int)) "D"
             (lv test_D) (rv t_nullptr) (b_compare op_ne));
      try reflexivity; try exact I. constructor.
Defined.





End PlainOperands.

(* ================================================================== *)
(** ** Comparison across representation types *)

Module CrossRepresentation.
Import Cxx strong Overload Init Operators Runtime Shapes Facts Selection Construction Assignment OperatorsMore.

Section AnyOtherAlias.
Variables (A B TA TB : ty) (bB : body) (NameA NameB : marker) (x y : operand).
Hypothesis HA : alias_type A TA NameA.
Hypothesis HsA : is_scalar TA = true.
Hypothesis HB : alias_type B TB NameB.
Hypothesis HTB : rep_type TB bB.
Hypothesis Hd : NameA <> NameB.
Hypothesis Hx : of_type x A.
Hypothesis Hy : of_type y B.

Lemma deleted_member_candidate (op : binop) :
  comparison_or_logical op ->
  exists oi, ((exists C0, oi = ics_base C0) \/ oi = ics_added_cv \/ oi = ics_identity) /\
    member_candidates op x y
    = [ {| cand_fn := member op B; cand_ics := [oi; const_ref_ics y];
           cand_template := true; cand_pack := false; cand_deleted := true |} ].
Proof.
  intros Hop.
  assert (Hobj : exists oi, object_ics true x = Some oi
            /\ ((exists C0, oi = ics_base C0) \/ oi = ics_added_cv \/ oi = ics_identity)).
  { unfold object_ics. simpl.
    destruct (remove_cv (o_ty x)); destruct (is_const (o_ty x)); simpl; eauto. }
  destruct Hobj as (oi & Hoi & Hc). exists oi. split; [exact Hc|].
  unfold member_candidates.
  rewrite (alias_of_operand A TA composition NameA x HA (rep_scalar TA HsA) Hx).
  assert (Hreq : is_different_alias B NameA = true).
  { rewrite (is_different_alias_alias B TB bB NameB HB HTB).
    apply negb_true_iff, String.eqb_neq. exact Hd. }
  destruct op as [o|o|o|o]; try contradiction; simpl;
    rewrite Hoi, (deduce_const_ref_operand B y Hy), Hreq; reflexivity.
Qed.

Lemma builtin_beside_deleted (op : binop) :
  comparison_or_logical op ->
  builtin_candidates op x y = []
  \/ exists f, builtin_candidates op x y
       = [ {| cand_fn := f;
              cand_ics := [ics_user ics_identity; ics_user ics_identity];
              cand_template := false; cand_pack := false;
              cand_deleted := false |} ].
Proof.
  intros Hop. unfold builtin_candidates.
  rewrite (offers_alias_operand A TA NameA x HA HsA Hx).
  assert (Hoy : offers (o_ty y) = None
                \/ exists V, offers (o_ty y) = Some (V, true)).
  { unfold offers. rewrite (operand_not_scalar B TB NameB y HB Hy).
    rewrite (alias_of_operand B TB bB NameB y HB HTB Hy).
    destruct bB; simpl; eauto. }
  destruct Hoy as [-> | (V & ->)]; [now left|].
  destruct op as [o|o|o|o]; try contradiction; simpl;
    match goal with
    | |- context [if ?c then _ else _] => destruct c
    end; eauto.
Qed.

Lemma deleted_whatever_the_representation (op : binop) :
  comparison_or_logical op -> resolve op x y = UsesDeleted (member op B).
Proof.
  intros Hop. unfold resolve, operator_candidates.
  rewrite (proj1 (nonmember_scalar_alias A TA NameA x y op HA HsA Hx)), app_nil_r.
  destruct (deleted_member_candidate op Hop) as (oi & Hc & ->).
  assert (Hi : implicit_assign_candidates op x y = []).
  { destruct op; try contradiction; reflexivity. }
  rewrite Hi. cbn [app].
  destruct (builtin_beside_deleted op Hop) as [-> | (f & ->)].
  - now rewrite select_single.
  - rewrite select_first_of_two; [reflexivity| |];
      unfold better, const_ref_ics;
      destruct Hc as [(C0 & ->) | [-> | ->]]; destruct (is_const (o_ty y)); reflexivity.
Qed.

End AnyOtherAlias.

(** X14.  The deleted comparison and logical operators of a scalar alias
    fire for an operand of every other alias, whatever that alias is built
    over (another scalar type, or a class).  With the operands exchanged the
    verdict depends on the body of the left operand: a scalar alias on the
    left deletes, a class alias on the left has no candidate. *)
Theorem comparison_across_representations
    (A B TA TB : ty) (bB : body) (NameA NameB : marker)
    (x y : operand) (op : binop) :
  alias_type A TA NameA -> is_scalar TA = true ->
  alias_type B TB NameB -> rep_type TB bB -> NameA <> NameB ->
  of_type x A -> of_type y B -> comparison_or_logical op ->
  resolve op x y = UsesDeleted (member op B)
  /\ resolve op y x
     = match bB with
       | composition => UsesDeleted (member op A)
       | inheritance => NoViable
       end.
Proof.
  intros HA HsA HB HTB Hd Hx Hy Hop.
  split.
  - exact (deleted_whatever_the_representation A B TA TB bB NameA NameB x y
             HA HsA HB HTB Hd Hx Hy op Hop).
  - destruct HTB as [TB HsB|n d Hf].
    + apply (deleted_whatever_the_representation B A TB TA composition NameB NameA
               y x HB HsB HA (rep_scalar TA HsA)); auto.
    + apply (class_alias_no_candidate B n d NameB y op HB Hf Hop Hy
               A TA NameA x HA HsA); auto.
Qed.

Lemma comparison_across_representations_witness :
  resolve (b_compare op_lt) (lv test_A) (lv test_D)
  = UsesDeleted (member (b_compare op_lt) test_D)
  /\ resolve (b_compare op_eq) (lv test_A) (lv test_X)
     = UsesDeleted (member (b_compare op_eq) test_X)
  /\ resolve (b_compare op_eq) (lv test_X) (lv test_A) = NoViable.
Proof.
  destruct (comparison_across_representations test_A test_D
              (t_arith Int) (t_ptr (t_arith Int)) composition "A" "D"
              (lv test_A) (lv test_D) (b_compare op_lt)) as (H1 & _);
    try reflexivity; try discriminate; try (constructor; reflexivity).
  destruct (comparison_across_representations test_A test_X
              (t_arith Int) open_class inheritance "A" "X"
              (lv test_A) (lv test_X) (b_compare op_eq)) as (H2 & H3);
    try reflexivity; try discriminate; try (constructor; reflexivity).
  split; [exact H1|]. split; [exact H2 | exact H3].
Defined.

End CrossRepresentation.

(* ================================================================== *)
(** ** The two bodies at run time *)

Module BodiesAgree.
Import Cxx strong Overload Init Operators Runtime Shapes.

(** X15.  The two bodies implement one behaviour.  Started from the same
    [T] value, the composition body (which owns the value) and the
    inheritance body (which is the value) are left holding the same value by
    every increment, decrement and compound assignment, fail together where
    [T]'s operator is undefined, and their postfix operators hand back an
    alias holding the same old value. *)
Theorem bodies_agree
    (V : Type) (R : representation V) (v arg : V) (o : incr_op) (a : assign_op) :
  let c := construct v in
  let d := construct_derived v in
  option_map (fun r => operator_T (fst r)) (increment o c)
  = option_map as_T (inherited_prefix o d)
  /\ option_map (fun r => as_T (fst r)) (inherited_postfix o d)
     = option_map as_T (inherited_prefix o d)
  /\ (forall c' r, increment post_inc c = Some (c', r) ->
      exists d' tmp, inherited_postfix post_inc d = Some (d', tmp)
                     /\ r = ret_alias (construct (as_T tmp))
                     /\ as_T tmp = v /\ as_T d' = operator_T c')
  /\ option_map (fun r => operator_T (fst r)) (compound_assign a c arg)
     = option_map as_T (inherited_compound a d arg)
  /\ (increment o c = None <-> inherited_prefix o d = None).
Proof.
  intros c d. unfold increment, inherited_postfix, inherited_prefix,
    compound_assign, inherited_compound, c, d, construct, construct_derived.
  cbn [value T_subobject as_T].
  split; [destruct (T_step o v); reflexivity|].
  split; [destruct (T_step o v); reflexivity|].
  split.
  - intros c' r. destruct (T_step post_inc v) as [v'|] eqn:Hs; [|discriminate].
    intros E. inversion E; subst.
    exists {| T_subobject := v' |}, {| T_subobject := v |}.
    repeat split.
  - split; [destruct (T_compound a v arg); reflexivity|].
    destruct (T_step o v); split; intros; try discriminate; reflexivity.
Qed.

Lemma bodies_agree_witness :
  exists d' tmp,
    @inherited_postfix Z unsigned_int post_inc (construct_derived 7%Z)
    = Some (d', tmp)
    /\ as_T tmp = 7%Z /\ as_T d' = 8%Z.
Proof.
  destruct (bodies_agree Z unsigned_int 7%Z 0%Z post_inc op_assign)
    as (_ & _ & H & _).
  destruct (H {| value := 8%Z |} (ret_alias (construct 7%Z)) eq_refl)
    as (d' & tmp & H1 & _ & H2 & H3).
  exists d', tmp. split; [exact H1|]. split; [exact H2 | exact H3].
Defined.

End BodiesAgree.

(* ================================================================== *)
(** ** Assignment from a plain value *)

Module PlainAssignment.
Import Cxx strong Overload Init Operators Runtime Shapes Facts Selection Construction Assignment PlainOperands.

(** X16.  Assigning a plain scalar value that converts to [T] without
    narrowing.  On the specialisation [alias<T,Name>] the member template
    [operator=] takes the value directly.  In the struct the macro declares
    that template is hidden by the implicitly declared assignment operators,
    so the value is first converted into a temporary alias by the
    single-argument constructor and then move-assigned.  Either way the
    alias ends up holding the value. *)
Theorem assignment_from_plain_value
    (A T : ty) (Name : marker) (x y : operand) :
  alias_type A T Name -> is_scalar T = true -> is_const T = false ->
  of_type x A -> is_const (o_ty x) = false ->
  is_scalar (o_ty y) = true ->
  standard_conversion (remove_cv (o_ty y)) (remove_cv T) = Some false ->
  resolve (b_assign op_assign) x y
  = (if is_macro_struct A then Selected implicit_move_assign
     else Selected (member (b_assign op_assign) (remove_cv (o_ty y))))
  /\ implicitly_convertible y A = true
  /\ forall (V : Type) (R : representation V) (this : alias_object) (v : V),
       compound_assign op_assign this v = Some (construct v, ret_this)
       /\ copy_assign this (construct v) = Some (construct v, ret_this).
Proof.
  intros HA Hs HTc Hx Hxc Hy Hconv.
  pose proof (rep_scalar T Hs) as HT.
  assert (Hic : implicitly_convertible y A = true).
  { unfold implicitly_convertible.
    now rewrite (initialize_from_scalar A T Name y HA Hs Hy copy Hconv). }
  split; [|split; [exact Hic|]].
  - unfold resolve, operator_candidates.
    rewrite nonmember_simple_assignment, app_nil_r.
    rewrite (no_builtin_assignment A T composition Name x y op_assign HA HT Hx),
      app_nil_r.
    assert (Hi : implicit_assign_candidates (b_assign op_assign) x y
                 = [ {| cand_fn := implicit_copy_assign;
                        cand_ics := [ics_identity; ics_user ics_lvalue_ref_to_rvalue];
                        cand_template := false; cand_pack := false;
                        cand_deleted := false |};
                     {| cand_fn := implicit_move_assign;
                        cand_ics := [ics_identity; ics_user ics_identity];
                        cand_template := false; cand_pack := false;
                        cand_deleted := false |} ]).
    { unfold implicit_assign_candidates. cbv zeta.
      rewrite (alias_of_operand A T composition Name x HA HT Hx), Hxc, !Hx.
      rewrite !(scalar_not_derived y Hy A), Hic, HTc. cbn [orb app].
      destruct (o_cat y); reflexivity. }
    rewrite Hi.
    destruct (is_macro_struct A) eqn:Hm.
    + assert (Hn : member_candidates (b_assign op_assign) x y = []).
      { unfold member_candidates.
        rewrite (alias_of_operand A T composition Name x HA HT Hx), declared_assignment.
        unfold hidden, hidden_in_macro.
        rewrite (macro_struct_operand A T Name x HA Hx), Hm.
        now destruct (object_ics _ x). }
      rewrite Hn. reflexivity.
    + rewrite (member_candidates_assignment A T composition Name x y op_assign
                 HA HT Hx Hxc) by (unfold hidden_in_macro; now rewrite Hm).
      destruct (plain_operand_clause Name y Hy) as (-> & _). rewrite Hm.
      assert (Hsel : select
                ([ {| cand_fn := member (b_assign op_assign) (deduce_const_ref y);
                      cand_ics := [ics_identity; const_ref_ics y];
                      cand_template := true; cand_pack := false;
                      cand_deleted := false |} ] ++
                 [ {| cand_fn := implicit_copy_assign;
                      cand_ics := [ics_identity; ics_user ics_lvalue_ref_to_rvalue];
                      cand_template := false; cand_pack := false;
                      cand_deleted := false |};
                   {| cand_fn := implicit_move_assign;
                      cand_ics := [ics_identity; ics_user ics_identity];
                      cand_template := false; cand_pack := false;
                      cand_deleted := false |} ])
                = Selected (member (b_assign op_assign) (deduce_const_ref y))).
      { unfold const_ref_ics. destruct (is_const (o_ty y)); reflexivity. }
      rewrite Hsel. unfold member_body_ok.
      rewrite (alias_of_operand A T composition Name x HA HT Hx), HTc.
      rewrite (offers_scalar_operand y Hy). cbn [builtin_ok negb andb].
      now rewrite Hconv.
  - intros V R this v. split; reflexivity.
Qed.

Lemma assignment_from_plain_value_witness :
  resolve (b_assign op_assign) (lv test_A) (rv (t_arith Int))
  = Selected implicit_move_assign
  /\ resolve (b_assign op_assign) (lv (alias (t_arith Int) "A")) (rv (t_arith Int))
     = Selected (member (b_assign op_assign) (t_arith Int)).
Proof.
  split.
  - apply (assignment_from_plain_value test_A (t_arith Int) "A"
             (lv test_A) (rv (t_arith Int)));
      try reflexivity. constructor.
  - apply (assignment_from_plain_value (alias (t_arith Int) "A") (t_arith Int) "A"
             (lv (alias (t_arith Int) "A")) (rv (t_arith Int)));
      try reflexivity. constructor.
Defined.

End PlainAssignment.

(* ================================================================== *)
(** ** Category selection in the earliest variant *)

Module EarlierCategory.
Import Cxx strong Overload Shapes Facts.

(** X17.  Category selection in the earliest variant of the header, which
    enables the class specialisation for every class type: it selects the
    same body as the header for every type that is not a final class, never
    matches both specialisations, and for a final class selects the
    inheritance body (which cannot derive from it) where the header selects
    none. *)
Theorem earliest_variant_category_selection (T : ty) :
  strong_2020.instantiate T <> Ambiguous
  /\ (is_class T && is_final T = false ->
      strong_2020.instantiate T = strong.instantiate T)
  /\ (is_class T && is_final T = true ->
      strong_2020.instantiate T = Body inheritance
      /\ strong.instantiate T = Incomplete).
Proof.
  unfold strong_2020.instantiate, strong_2020.specializations,
    strong.instantiate, strong.specializations. cbn [filter snd fst].
  destruct (is_scalar T) eqn:Hs.
  - rewrite (scalar_not_class T Hs). cbn [andb].
    split; [discriminate|]. split; [reflexivity | discriminate].
  - destruct (is_class T), (is_final T); cbn [andb negb];
      (split; [discriminate|]); split; intros; try discriminate; auto.
Qed.

Lemma earliest_variant_witness :
  strong_2020.instantiate open_class = strong.instantiate open_class
  /\ strong_2020.instantiate final_class = Body inheritance
  /\ strong.instantiate final_class = Incomplete.
Proof.
  destruct (earliest_variant_category_selection open_class) as (_ & H1 & _).
  destruct (earliest_variant_category_selection final_class) as (_ & _ & H2).
  split; [apply H1; reflexivity | apply H2; reflexivity].
Defined.

End EarlierCategory.

(* ================================================================== *)
(** ** Increment and decrement of the inheritance body *)

Module ClassIncrement.
Import Cxx strong Overload Init Operators Runtime Shapes Facts Selection Construction CopyMove.

Section StepOnClassAlias.
Variables (A : ty) (n : string) (d : class_decl) (Name : marker) (x : operand).
Hypothesis HA : alias_type A (t_class n d) Name.
Hypothesis Hf : cls_final d = false.
Hypothesis Hx : of_type x A.
Hypothesis Hxc : is_const (o_ty x) = false.

Lemma step_candidates_class (o : incr_op) :
  step_candidates o x
  = if existsb (incr_op_eqb o) (cls_steps d)
    then [ {| cand_fn := member_step o;
              cand_ics := [ if is_macro_struct A
                            then ics_base (alias (t_class n d) Name)
                            else ics_identity ];
              cand_template := false; cand_pack := false;
              cand_deleted := false |} ]
    else [].
Proof.
  unfold step_candidates.
  rewrite (alias_of_operand A _ inheritance Name x HA (rep_class n d Hf) Hx).
  rewrite (object_ics_operand A _ Name x HA Hx), Hxc.
  cbn [negb andb incr_requires].
  destruct (is_macro_struct A); reflexivity.
Qed.

(** [alias tmp{ *this };] copies the alias, by the single-argument
    constructor. *)
Lemma postfix_copy_compiles :
  compiles (initialize direct (alias (t_class n d) Name)
              [lv (alias (t_class n d) Name)]) = true.
Proof.
  rewrite (copy_move_initialize (alias (t_class n d) Name) _ inheritance Name
             (lv (alias (t_class n d) Name)) (at_template _ Name)
             (rep_class n d Hf) eq_refl).
  now rewrite (copy_move_selected (alias (t_class n d) Name) _ inheritance Name
                 (lv (alias (t_class n d) Name)) (at_template _ Name)
                 (rep_class n d Hf) eq_refl).
Qed.

Lemma step_body_class (o : incr_op) :
  step_body_ok o x
  = negb (is_postfix o) || existsb (incr_op_eqb (prefix_of o)) (cls_steps d).
Proof.
  unfold step_body_ok.
  rewrite (alias_of_operand A _ inheritance Name x HA (rep_class n d Hf) Hx).
  now rewrite postfix_copy_compiles.
Qed.

End StepOnClassAlias.

(** X8.  Increment and decrement of an alias with the inheritance body.
    Each of the four operators is offered exactly when [T] has that very
    operator.  The prefix forms step the [T] sub-object; the postfix forms
    copy the alias and call the alias's own prefix operator, so for a [T]
    that has a postfix operator without the matching prefix one the postfix
    operator of the alias is selected and its body does not instantiate.
    The results are typed by the specialisation, as for the composition
    body. *)
Theorem class_alias_increment
    (A : ty) (n : string) (d : class_decl) (Name : marker)
    (x : operand) (o : incr_op) :
  alias_type A (t_class n d) Name -> cls_final d = false ->
  of_type x A -> is_const (o_ty x) = false ->
  incr_requires (t_class n d) o = existsb (incr_op_eqb o) (cls_steps d)
  /\ resolve_step o x
     = (if existsb (incr_op_eqb o) (cls_steps d)
        then if negb (is_postfix o)
                || existsb (incr_op_eqb (prefix_of o)) (cls_steps d)
             then Selected (member_step o)
             else IllFormedBody (member_step o)
        else NoViable)
  /\ step_result strong.incr_result o x
     = Some (if is_postfix o then rv (alias (t_class n d) Name)
             else lv (alias (t_class n d) Name)).
Proof.
  intros HA Hf Hx Hxc.
  split; [reflexivity|]. split.
  - unfold resolve_step.
    rewrite (step_candidates_class A n d Name x HA Hf Hx Hxc o).
    destruct (existsb (incr_op_eqb o) (cls_steps d)); [|reflexivity].
    rewrite select_single. cbn [chosen cand_deleted cand_fn].
    now rewrite (step_body_class A n d Name x HA Hf Hx o).
  - unfold step_result.
    rewrite (alias_of_operand A _ inheritance Name x HA (rep_class n d Hf) Hx).
    now destruct o.
Qed.

Lemma class_alias_increment_witness :
  resolve_step post_inc (lv (STRONG_ALIAS "K" counter_class))
  = Selected (member_step post_inc)
  /\ resolve_step pre_inc (lv (STRONG_ALIAS "P" postfix_only_class)) = NoViable
  /\ resolve_step post_inc (lv (STRONG_ALIAS "P" postfix_only_class))
     = IllFormedBody (member_step post_inc)
  /\ resolve_step pre_inc (lv test_X) = NoViable.
Proof.
  destruct (class_alias_increment (STRONG_ALIAS "K" counter_class)
              "Counter" counter_decl "K" (lv (STRONG_ALIAS "K" counter_class))
              post_inc (at_macro _ _) eq_refl eq_refl eq_refl) as (_ & H1 & _).
  destruct (class_alias_increment (STRONG_ALIAS "P" postfix_only_class)
              "Cursor" postfix_only_decl "P"
              (lv (STRONG_ALIAS "P" postfix_only_class)) pre_inc
              (at_macro _ _) eq_refl eq_refl eq_refl) as (_ & H2 & _).
  destruct (class_alias_increment (STRONG_ALIAS "P" postfix_only_class)
              "Cursor" postfix_only_decl "P"
              (lv (STRONG_ALIAS "P" postfix_only_class)) post_inc
              (at_macro _ _) eq_refl eq_refl eq_refl) as (_ & H3 & _).
  destruct (class_alias_increment test_X "Vector3d" open_decl "X" (lv test_X)
              pre_inc (at_macro _ _) eq_refl eq_refl eq_refl) as (_ & H4 & _).
  split; [exact H1|]. split; [exact H2|]. split; [exact H3 | exact H4].
Defined.

End ClassIncrement.
